(** * Image Filter Studio: the pixel pipeline and the snapshot history

    A shallow embedding of [src/App.js]: the canvas drawing pipeline
    ([drawFull]), the two pixel effects ([applyKernel], [applySobel]) and the
    undo/redo history ([pushHistory], [undo], [redo]).

    JavaScript numbers that stay integral are modelled in [Z]; the weights of
    a convolution kernel and the accumulated sums are IEEE 754 binary64
    values ([spec_float] with the operations of [SpecFloat] at precision 53),
    as the doubles of the source are; the slider and preview arithmetic is in
    [Q].  Typed arrays ([Uint8ClampedArray]) are lists of [Z] updated in
    place with stdpp's list insert, which like a typed array ignores a write
    out of range.  The
    operations of the browser canvas that the program calls but does not
    define (resampling, CSS filters, compositing, PNG encoding) and the
    floating-point luma stored into a byte are the methods of the class
    [Platform]. *)

From Stdlib Require Import ZArith QArith Qround SpecFloat String Lia Lqa Bool.
From stdpp Require Import base list.

Local Open Scope Z_scope.

(** ** Data model *)

(** An RGBA8 raster as [ImageData] has it: four entries of [data] per pixel,
    row after row.  The same record stands for the bitmap of a canvas and for
    a decoded image element. *)
Record ImageData := mkImageData {
  width : Z;
  height : Z;
  data : list Z
}.

(** [createImageData]: every channel of every pixel is 0 (transparent black). *)
Definition blank (w h : Z) : ImageData :=
  mkImageData w h (replicate (Z.to_nat (w * h * 4)) 0).

(** The slider values held in the React state [f]. [pixelate] is an integer:
    its slider has [step = 1] and snaps with [Math.round]. *)
Record Filters := mkFilters {
  brightness : Q;
  contrast : Q;
  saturation : Q;
  hue : Q;
  grayscale : Q;
  sepia : Q;
  invert : Q;
  blur : Q;
  pixelate : Z
}.

(** A canvas together with the part of its 2D context state that the program
    sets: [imageSmoothingEnabled] and [ctx.filter] ([None] is the filter "none",
    [Some f] is the string built by [cssFilter] from [f]). *)
Record Canvas := mkCanvas {
  bitmap : ImageData;
  imageSmoothingEnabled : bool;
  ctx_filter : option Filters
}.

(** The three canvas refs of the component. *)
Record Refs := mkRefs {
  fullRef : option Canvas;
  tempSmallRef : option Canvas;
  tempLargeRef : option Canvas
}.

(** The React state read by [drawFull]. *)
Record View := mkView {
  img : option ImageData;
  f : Filters;
  edgeDetect : bool;
  kernelName : string;
  showOriginal : bool
}.

(** The React state of the history: [history] and [hIndex]. *)
Record Hist := mkHist {
  history : list string;
  hIndex : Z
}.

(** Calls that can throw: [getImageData] and [createImageData] raise
    IndexSizeError on a zero width or height. *)
Inductive Outcome (A : Type) : Type :=
| Done (a : A)
| IndexSizeError.
Arguments Done {A} a.
Arguments IndexSizeError {A}.

#[global] Instance Outcome_bind : MBind Outcome := fun A B k o =>
  match o with
  | Done a => k a
  | IndexSizeError => IndexSizeError
  end.

(** ** The browser operations the program relies on *)

Class Platform := {
  (** pixels of a source drawn at size [dw] x [dh] by [drawImage]; the flag
      is the context's [imageSmoothingEnabled] *)
  resample : bool -> ImageData -> Z -> Z -> list Z;
  (** pixels of a drawn image after the CSS filter chain built from [f] *)
  cssFilterPixels : Filters -> ImageData -> list Z;
  (** source-over compositing of a drawn image onto a bitmap of its size *)
  sourceOver : ImageData -> ImageData -> list Z;
  (** [0.299*r + 0.587*g + 0.114*b] as stored into a [Uint8ClampedArray] *)
  luma8 : Z -> Z -> Z -> Z;
  (** [canvas.toDataURL("image/png")] *)
  toDataURL : ImageData -> string;
  (** loading an image element from a URL; [None] when [onload] never fires *)
  decodeDataURL : string -> option ImageData
}.

(** ** JavaScript helpers *)

(** [l[i]]: [None] is [undefined]. *)
Definition js_get {A : Type} (l : list A) (i : Z) : option A :=
  if i <? 0 then None else l !! Z.to_nat i.

(** [l[i] = v] on a typed array: a write out of range is ignored. *)
Definition js_set {A : Type} (l : list A) (i : Z) (v : A) : list A :=
  if i <? 0 then l else <[Z.to_nat i := v]> l.

(** A relative index of [Array.prototype.slice]. *)
Definition js_rel (len k : Z) : Z :=
  if k <? 0 then Z.max (len + k) 0 else Z.min k len.

(** [l.slice(start, end)]; [l.slice(start)] is [js_slice l start None]. *)
Definition js_slice {A : Type} (l : list A) (start : Z) (end_ : option Z) : list A :=
  let len := Z.of_nat (length l) in
  let from := js_rel len start in
  let final := match end_ with None => len | Some e => js_rel len e end in
  take (Z.to_nat (final - from)) (drop (Z.to_nat from) l).

(** ** The shape of the pixel loops

    Both effects run the same two loops and store four channels per pixel;
    [paint] is that loop body for a value [val x y c] of channel [c] of the
    pixel [(x, y)]. *)

Definition write_px (o v0 v1 v2 v3 : Z) (d : list Z) : list Z :=
  js_set (js_set (js_set (js_set d (o + 0) v0) (o + 1) v1) (o + 2) v2) (o + 3) v3.

Definition pick (v0 v1 v2 v3 c : Z) : Z :=
  if c =? 0 then v0 else if c =? 1 then v1 else if c =? 2 then v2 else v3.

Definition paint (w : Z) (val : Z -> Z -> Z -> Z) (y : Z) (d : list Z) (x : Z) : list Z :=
  write_px ((y * w + x) * 4) (val x y 0) (val x y 1) (val x y 2) (val x y 3) d.

Definition paint_all (w : Z) (val : Z -> Z -> Z -> Z) (xs ys : list Z) (d : list Z) : list Z :=
  fold_left (fun d y => fold_left (paint w val y) xs d) ys d.

(** ** Canvas calls and history *)

Section Program.
Context `{Platform}.

(** The 2D context calls used by the program. [clearRect] is always called
    on the whole canvas. *)
Definition clearRect (c : Canvas) : Canvas :=
  mkCanvas (blank (width (bitmap c)) (height (bitmap c)))
           (imageSmoothingEnabled c) (ctx_filter c).

Definition set_imageSmoothingEnabled (b : bool) (c : Canvas) : Canvas :=
  mkCanvas (bitmap c) b (ctx_filter c).

Definition set_ctx_filter (fl : option Filters) (c : Canvas) : Canvas :=
  mkCanvas (bitmap c) (imageSmoothingEnabled c) fl.

(** What [drawImage] paints before compositing: the source resampled to
    [dw] x [dh] and passed through the context's filter. *)
Definition drawn (c : Canvas) (src : ImageData) (dw dh : Z) : ImageData :=
  let scaled := mkImageData dw dh (resample (imageSmoothingEnabled c) src dw dh) in
  match ctx_filter c with
  | None => scaled
  | Some fl => mkImageData dw dh (cssFilterPixels fl scaled)
  end.

(** [ctx.drawImage(src, 0, 0, dw, dh)] (and the nine-argument form whose
    source rectangle is the whole source). *)
Definition drawImage (src : ImageData) (dw dh : Z) (c : Canvas) : Canvas :=
  mkCanvas (mkImageData (width (bitmap c)) (height (bitmap c))
                        (sourceOver (drawn c src dw dh) (bitmap c)))
           (imageSmoothingEnabled c) (ctx_filter c).

(** [pushHistory], with the [hIndex] captured by the callback kept apart
    from the state the functional updates receive. *)
Definition pushHistory_captured (captured : Z) (r : Refs) (s : Hist) : Hist :=
  match fullRef r with
  | None => s
  | Some full =>
      let url := toDataURL (bitmap full) in
      let next := js_slice (history s) 0 (Some (captured + 1)) ++ [url] in
      mkHist (js_slice next (-20) None) (Z.min (hIndex s + 1) 19)
  end.

(** The callback is rebuilt whenever [hIndex] changes, so the captured value
    is the current one. *)
Definition pushHistory (r : Refs) (s : Hist) : Hist :=
  pushHistory_captured (hIndex s) r s.

(** [restoreFromDataURL]; the drawing done in [onload] is taken to happen
    before the next command. *)
Definition restoreFromDataURL (url : option string) (r : Refs) : Refs :=
  match url ≫= decodeDataURL, fullRef r with
  | Some img2, Some full =>
      let full := clearRect full in
      let full := drawImage img2 (width (bitmap full)) (height (bitmap full)) full in
      mkRefs (Some full) (tempSmallRef r) (tempLargeRef r)
  | _, _ => r
  end.

Definition undo (s : Hist) (r : Refs) : Hist * Refs :=
  if 0 <? hIndex s then
    (mkHist (history s) (hIndex s - 1),
     restoreFromDataURL (js_get (history s) (hIndex s - 1)) r)
  else (s, r).

Definition redo (s : Hist) (r : Refs) : Hist * Refs :=
  if hIndex s <? Z.of_nat (length (history s)) - 1 then
    (mkHist (history s) (hIndex s + 1),
     restoreFromDataURL (js_get (history s) (hIndex s + 1)) r)
  else (s, r).


(** *** Typed-array stores and [Math] helpers *)

(** An exact value that may be NaN ([None]). *)
Definition num : Type := option Q.

Definition qmin (a b : Q) : Q := if Qle_bool a b then a else b.
Definition qmax (a b : Q) : Q := if Qle_bool a b then b else a.

(** A JavaScript number: a double. [fadd], [fmul] and [fdiv] are [+], [*]
    and [/] on doubles, rounding to nearest, ties to even. *)
Definition number : Type := spec_float.

#[global] Instance number_eq_dec : EqDecision number.
Proof. unfold number. solve_decision. Defined.

Definition fadd : number -> number -> number := SFadd 53 1024.
Definition fmul : number -> number -> number := SFmul 53 1024.
Definition fdiv : number -> number -> number := SFdiv 53 1024.

(** The double of an integer literal or of a byte read from a typed array. *)
Definition of_int (z : Z) : number := binary_normalize 53 1024 z 0 false.

(** A read that may be [undefined], used as an operand: [undefined]
    converts to NaN. *)
Definition number_of (o : option Z) : number :=
  match o with
  | Some z => of_int z
  | None => S754_nan
  end.

(** A number that [||] takes for false: a zero or NaN. *)
Definition falsy (x : number) : bool :=
  match x with
  | S754_zero _ | S754_nan => true
  | _ => false
  end.

Definition is_negative_zero (x : number) : bool :=
  match x with
  | S754_zero true => true
  | _ => false
  end.

(** [Math.min] and [Math.max] of two numbers: NaN if either is NaN, and
    [-0] below [+0]. *)
Definition math_min (a b : number) : number :=
  match SFcompare a b with
  | None => S754_nan
  | Some Lt => a
  | Some Gt => b
  | Some Eq => if is_negative_zero a then a else b
  end.

Definition math_max (a b : number) : number :=
  match SFcompare a b with
  | None => S754_nan
  | Some Lt => b
  | Some Gt => a
  | Some Eq => if is_negative_zero a then b else a
  end.

(** [Math.max(0, Math.min(255, r))]. *)
Definition clamp255 (r : number) : number :=
  math_max (of_int 0) (math_min (of_int 255) r).

(** The exact value of a finite double with sign [s], mantissa [m] and
    exponent [e]. *)
Definition exact_value (s : bool) (m : positive) (e : Z) : Q :=
  let magnitude :=
    match e with
    | Z0 => Zpos m # 1
    | Zpos k => (Zpos m * Z.pow_pos 2 k) # 1
    | Zneg k => Zpos m # Pos.pow 2 k
    end in
  if s then (- magnitude)%Q else magnitude.

(** Rounding to the nearest integer, ties to even. *)
Definition round_half_even (q : Q) : Z :=
  let fl := Qfloor q in
  let frac := (q - inject_Z fl)%Q in
  if Qle_bool frac (1 # 2) then
    if Qle_bool (1 # 2) frac then (if Z.even fl then fl else fl + 1) else fl
  else fl + 1.

(** The conversion applied by a store into a [Uint8ClampedArray], on an
    exact value. *)
Definition toUint8Clamped (r : num) : Z :=
  match r with
  | None => 0
  | Some q => Z.max 0 (Z.min 255 (round_half_even q))
  end.

(** The same conversion on a double (ToUint8Clamp). *)
Definition ToUint8Clamp (x : number) : Z :=
  match x with
  | S754_nan => 0
  | S754_zero _ => 0
  | S754_infinity s => if s then 0 else 255
  | S754_finite s m e => toUint8Clamped (Some (exact_value s m e))
  end.

(** [Math.min(255, Math.hypot(sx, sy))] of integers, as stored into a
    [Uint8ClampedArray]: the square root of an integer is never half way
    between two integers, so rounding it to nearest is
    [(isqrt(4n) + 1) / 2]. *)
Definition hypot8 (sx sy : Z) : Z :=
  Z.min 255 ((Z.sqrt (4 * (sx * sx + sy * sy)) + 1) / 2).

(** *** [getImageData], [createImageData], [putImageData] *)

Definition getImageData (c : Canvas) : Outcome ImageData :=
  if (width (bitmap c) =? 0) || (height (bitmap c) =? 0) then IndexSizeError
  else Done (bitmap c).

Definition createImageData (w h : Z) : Outcome ImageData :=
  if (w =? 0) || (h =? 0) then IndexSizeError else Done (blank w h).

(** [ctx.putImageData(d, 0, 0)] with [d] of the size of the canvas. *)
Definition putImageData (d : ImageData) (c : Canvas) : Canvas :=
  mkCanvas (mkImageData (width (bitmap c)) (height (bitmap c)) (data d))
           (imageSmoothingEnabled c) (ctx_filter c).

(** *** Kernels *)

Definition kernelFromName (name : string) : list number :=
  if String.eqb name "Sharpen" then of_int <$> [0; -1; 0; -1; 5; -1; 0; -1; 0]
  else if String.eqb name "Blur" then of_int <$> [1; 1; 1; 1; 1; 1; 1; 1; 1]
  else if String.eqb name "Emboss" then of_int <$> [-2; -1; 0; -1; 1; 1; 0; 1; 2]
  else of_int <$> [0; 0; 0; 0; 1; 0; 0; 0; 0].

(** [kernel.reduce((a,b)=>a+b,0)||1] *)
Definition kernel_sum (kernel : list number) : number :=
  let s := fold_left fadd kernel (of_int 0) in
  if falsy s then of_int 1 else s.

(** [kernel.map(v=>v/sum)] *)
Definition kernel_weights (kernel : list number) : list number :=
  (fun v => fdiv v (kernel_sum kernel)) <$> kernel.

(** The accumulators [r], [g], [b] and the counter [p] of the 3x3 loops. *)
Record Acc := mkAcc { acc_r : number; acc_g : number; acc_b : number; acc_p : nat }.

(** One pass of the inner loop: [w = k[p++]] is NaN in the products when
    [k[p]] is [undefined]. *)
Definition kernel_tap (k : list number) (src : ImageData) (x y ky : Z) (a : Acc) (kx : Z)
    : Acc :=
  let w := default S754_nan (k !! acc_p a) in
  let o := ((y + ky) * width src + (x + kx)) * 4 in
  mkAcc (fadd (acc_r a) (fmul w (number_of (js_get (data src) (o + 0)))))
        (fadd (acc_g a) (fmul w (number_of (js_get (data src) (o + 1)))))
        (fadd (acc_b a) (fmul w (number_of (js_get (data src) (o + 2)))))
        (S (acc_p a)).

Definition kernel_taps (k : list number) (src : ImageData) (x y : Z) : Acc :=
  fold_left (fun a ky => fold_left (kernel_tap k src x y ky) [-1; 0; 1] a)
            [-1; 0; 1] (mkAcc (of_int 0) (of_int 0) (of_int 0) 0%nat).

(** The body of the two pixel loops of [applyKernel]. *)
Definition kernel_pixel (k : list number) (src : ImageData) (y : Z) (d : list Z) (x : Z)
    : list Z :=
  let a := kernel_taps k src x y in
  let o := (y * width src + x) * 4 in
  let d := js_set d (o + 0) (ToUint8Clamp (clamp255 (acc_r a))) in
  let d := js_set d (o + 1) (ToUint8Clamp (clamp255 (acc_g a))) in
  let d := js_set d (o + 2) (ToUint8Clamp (clamp255 (acc_b a))) in
  js_set d (o + 3) 255.

Definition applyKernel (canvas : Canvas) (kernel : list number) : Outcome Canvas :=
  let w := width (bitmap canvas) in
  let h := height (bitmap canvas) in
  src ← getImageData canvas;
  dst ← createImageData w h;
  let k := kernel_weights kernel in
  let out :=
    fold_left (fun d y => fold_left (kernel_pixel k src y) (seqZ 1 (w - 2)) d)
              (seqZ 1 (h - 2)) (data dst) in
  Done (putImageData (mkImageData w h out) canvas).

(** *** Sobel *)

(** The luma loop: [gray[p]] for [i = 4p] below [src.data.length]. *)
Definition gray_step (src : ImageData) (gray : list Z) (p : Z) : list Z :=
  let i := 4 * p in
  let v := match js_get (data src) i, js_get (data src) (i + 1),
                 js_get (data src) (i + 2) with
           | Some r, Some g, Some b => luma8 r g b
           | _, _, _ => 0
           end in
  js_set gray p v.

Definition gray_of (src : ImageData) : list Z :=
  fold_left (gray_step src)
            (seqZ 0 ((Z.of_nat (length (data src)) + 3) / 4))
            (replicate (Z.to_nat (width src * height src)) 0).

Definition Gx : list Z := [-1; 0; 1; -2; 0; 2; -1; 0; 1].
Definition Gy : list Z := [-1; -2; -1; 0; 0; 0; 1; 2; 1].

(** The accumulators [sx], [sy] and the counter [p]; an [undefined] operand
    makes the sum NaN. *)
Record SAcc := mkSAcc { acc_sx : option Z; acc_sy : option Z; sacc_p : nat }.

Definition zadd (a b : option Z) : option Z :=
  match a, b with Some x, Some y => Some (x + y) | _, _ => None end.
Definition zmul (a b : option Z) : option Z :=
  match a, b with Some x, Some y => Some (x * y) | _, _ => None end.

Definition sobel_tap (w : Z) (gray : list Z) (x y ky : Z) (a : SAcc) (kx : Z) : SAcc :=
  let g := js_get gray ((y + ky) * w + (x + kx)) in
  mkSAcc (zadd (acc_sx a) (zmul (Gx !! sacc_p a) g))
         (zadd (acc_sy a) (zmul (Gy !! sacc_p a) g))
         (S (sacc_p a)).

Definition sobel_taps (w : Z) (gray : list Z) (x y : Z) : SAcc :=
  fold_left (fun a ky => fold_left (sobel_tap w gray x y ky) [-1; 0; 1] a)
            [-1; 0; 1] (mkSAcc (Some 0) (Some 0) 0%nat).

Definition sobel_pixel (w : Z) (gray : list Z) (y : Z) (d : list Z) (x : Z) : list Z :=
  let a := sobel_taps w gray x y in
  let mag := match acc_sx a, acc_sy a with
             | Some sx, Some sy => hypot8 sx sy
             | _, _ => 0
             end in
  let o := (y * w + x) * 4 in
  let d := js_set d (o + 0) mag in
  let d := js_set d (o + 1) mag in
  let d := js_set d (o + 2) mag in
  js_set d (o + 3) 255.

Definition applySobel (canvas : Canvas) : Outcome Canvas :=
  let w := width (bitmap canvas) in
  let h := height (bitmap canvas) in
  src ← getImageData canvas;
  let gray := gray_of src in
  out ← createImageData w h;
  let o :=
    fold_left (fun d y => fold_left (sobel_pixel w gray y) (seqZ 1 (w - 2)) d)
              (seqZ 1 (h - 2)) (data out) in
  Done (putImageData (mkImageData w h o) canvas).

(** What the two effects store for channel [c] of the pixel [(x, y)], and
    what the luma loop stores at [p]. *)
Definition kernel_val (k : list number) (src : ImageData) (x y c : Z) : Z :=
  let a := kernel_taps k src x y in
  pick (ToUint8Clamp (clamp255 (acc_r a))) (ToUint8Clamp (clamp255 (acc_g a)))
       (ToUint8Clamp (clamp255 (acc_b a))) 255 c.

Definition sobel_mag (w : Z) (gray : list Z) (x y : Z) : Z :=
  let a := sobel_taps w gray x y in
  match acc_sx a, acc_sy a with
  | Some sx, Some sy => hypot8 sx sy
  | _, _ => 0
  end.

Definition sobel_val (w : Z) (gray : list Z) (x y c : Z) : Z :=
  pick (sobel_mag w gray x y) (sobel_mag w gray x y) (sobel_mag w gray x y) 255 c.

Definition gray_val (src : ImageData) (p : Z) : Z :=
  match js_get (data src) (4 * p), js_get (data src) (4 * p + 1),
        js_get (data src) (4 * p + 2) with
  | Some r, Some g, Some b => luma8 r g b
  | _, _, _ => 0
  end.

(** *** [drawFull] *)

(** [document.createElement("canvas")]: 300 x 150, blank, default context. *)
Definition newCanvas : Canvas := mkCanvas (blank 300 150) true None.

(** Assigning [width] and [height]: the bitmap is cleared and the context
    state returns to its defaults. *)
Definition setSize (w h : Z) (c : Canvas) : Canvas := mkCanvas (blank w h) true None.

Definition isNoOp (fl : Filters) : bool :=
  Qeq_bool (brightness fl) 100 && Qeq_bool (contrast fl) 100 &&
  Qeq_bool (saturation fl) 100 && Qeq_bool (hue fl) 0 &&
  Qeq_bool (grayscale fl) 0 && Qeq_bool (sepia fl) 0 &&
  Qeq_bool (invert fl) 0 && Qeq_bool (blur fl) 0.

(** Steps 1 and 2 of the pixelate branch: down into [tSmall], back up into
    [full]. [Math.floor] of the integer [pixelate] is the identity. *)
Definition pixelate_pass (fl : Filters) (im : ImageData) (full : Canvas) (r : Refs)
    : Canvas * Refs :=
  let factor := Z.max 1 (pixelate fl) in
  let tw := Z.max 1 (width (bitmap full) / factor) in
  let th := Z.max 1 (height (bitmap full) / factor) in
  let tSmall := default newCanvas (tempSmallRef r) in
  let tSmall := setSize tw th tSmall in
  let tSmall := set_imageSmoothingEnabled false tSmall in
  let tSmall := clearRect tSmall in
  let tSmall := drawImage im tw th tSmall in
  let full := set_imageSmoothingEnabled false full in
  let full := drawImage (bitmap tSmall) (width (bitmap full)) (height (bitmap full)) full in
  let full := set_imageSmoothingEnabled true full in
  (full, mkRefs (fullRef r) (Some tSmall) (tempLargeRef r)).

(** Step 3 of the pixelate branch: the CSS filter over the pixelated result,
    through [tLarge], unless every slider is neutral. *)
Definition filter_pass (fl : Filters) (full : Canvas) (r : Refs) : Canvas * Refs :=
  if negb (isNoOp fl) then
    let tLarge := default newCanvas (tempLargeRef r) in
    let tLarge := setSize (width (bitmap full)) (height (bitmap full)) tLarge in
    let tLarge := clearRect tLarge in
    let tLarge := set_ctx_filter (Some fl) tLarge in
    let tLarge := drawImage (bitmap full) (width (bitmap full)) (height (bitmap full)) tLarge in
    let full := clearRect full in
    let full := drawImage (bitmap tLarge) (width (bitmap tLarge)) (height (bitmap tLarge)) full in
    (full, mkRefs (fullRef r) (tempSmallRef r) (Some tLarge))
  else (full, r).

(** The branch on [f.pixelate > 1]; [full] has been cleared. *)
Definition draw_base (fl : Filters) (im : ImageData) (full : Canvas) (r : Refs) : Canvas * Refs :=
  if 1 <? pixelate fl then
    let '(full, r) := pixelate_pass fl im full r in
    filter_pass fl full r
  else
    let full := set_ctx_filter (Some fl) full in
    let full := drawImage im (width (bitmap full)) (height (bitmap full)) full in
    let full := set_ctx_filter None full in
    (full, r).

(** The optional effects, run on [full] after the base draw. *)
Definition draw_effects (v : View) (full : Canvas) : Outcome Canvas :=
  full ← (if edgeDetect v then applySobel full else Done full);
  if negb (String.eqb (kernelName v) "None")
  then applyKernel full (kernelFromName (kernelName v))
  else Done full.

Definition drawFull (v : View) (r : Refs) : Outcome Refs :=
  match img v, fullRef r with
  | Some im, Some full =>
      let full := clearRect full in
      let full := set_imageSmoothingEnabled true full in
      if showOriginal v then
        let full := drawImage im (width (bitmap full)) (height (bitmap full)) full in
        Done (mkRefs (Some full) (tempSmallRef r) (tempLargeRef r))
      else
        let '(full, r) := draw_base (f v) im full r in
        full ← draw_effects v full;
        Done (mkRefs (Some full) (tempSmallRef r) (tempLargeRef r))
  | _, _ => Done r
  end.

(** ** The pipeline as the specification words it *)

(** Nearest-neighbour resampling: [drawImage] with smoothing disabled. *)
Definition nearest (src : ImageData) (w h : Z) : ImageData :=
  mkImageData w h (resample false src w h).

(** Resampler: [pixelate(src, factor)]. *)
Definition pixelate_spec (src : ImageData) (factor : Z) : ImageData :=
  if factor <=? 1 then src
  else
    let tw := Z.max 1 (width src / factor) in
    let th := Z.max 1 (height src / factor) in
    nearest (nearest src tw th) (width src) (height src).

(** ToneMapper: the filter chain applied to a buffer. *)
Definition toneMap (buf : ImageData) (fl : Filters) : ImageData :=
  mkImageData (width buf) (height buf) (cssFilterPixels fl buf).

(** One channel of one pixel, as a double. *)
Definition channel (im : ImageData) (x y c : Z) : number :=
  number_of (js_get (data im) ((y * width im + x) * 4 + c)).

(** Weight number [p] of the kernel, divided by the kernel's sum or by 1. *)
Definition weight (kernel : list number) (p : nat) : number :=
  fdiv (default S754_nan (kernel !! p)) (kernel_sum kernel).

Declare Scope number_scope.
Delimit Scope number_scope with number.
Infix "+" := fadd : number_scope.
Infix "*" := fmul : number_scope.

(** The weighted sum of the 3x3 neighbourhood of [(x, y)] in channel [c]:
    nine products added from the top left to the bottom right, each
    operation rounded as doubles are. *)
Definition weighted_sum (kernel : list number) (im : ImageData) (x y c : Z) : number :=
  (of_int 0 + weight kernel 0 * channel im (x - 1) (y - 1) c
     + weight kernel 1 * channel im x (y - 1) c
     + weight kernel 2 * channel im (x + 1) (y - 1) c
     + weight kernel 3 * channel im (x - 1) y c
     + weight kernel 4 * channel im x y c
     + weight kernel 5 * channel im (x + 1) y c
     + weight kernel 6 * channel im (x - 1) (y + 1) c
     + weight kernel 7 * channel im x (y + 1) c
     + weight kernel 8 * channel im (x + 1) (y + 1) c)%number.

(** The value of a colour channel [c] of an interior pixel after
    convolution. *)
Definition convolved (kernel : list number) (im : ImageData) (x y c : Z) : Z :=
  ToUint8Clamp (clamp255 (weighted_sum kernel im x y c)).

(** Interior pixels: all but the outermost one-pixel ring. *)
Definition interior (w h x y : Z) : Prop :=
  1 <= x < w - 1 /\ 1 <= y < h - 1.

(** A buffer as [getImageData] returns it. *)
Definition well_formed (im : ImageData) : Prop :=
  0 < width im /\ 0 < height im /\
  Z.of_nat (length (data im)) = width im * height im * 4.

(** Every pixel has the colour [(r, g, b)]. *)
Definition uniform (im : ImageData) (r g b : Z) : Prop :=
  forall p, 0 <= p < width im * height im ->
    js_get (data im) (4 * p) = Some r /\
    js_get (data im) (4 * p + 1) = Some g /\
    js_get (data im) (4 * p + 2) = Some b.

(** The invariant of the history state. *)
Definition hist_inv (s : Hist) : Prop :=
  -1 <= hIndex s <= Z.of_nat (length (history s)) - 1 /\
  (length (history s) <= 20)%nat.

(** A command that touches the history or the working canvas. [Draw c]
    stands for any redraw that leaves [c] in the working canvas; [Snapshot] is
    [pushHistory]. *)
Inductive Command :=
| Draw (c : Canvas)
| Snapshot
| Undo
| Redo.

Definition set_full (c : Canvas) (r : Refs) : Refs :=
  mkRefs (Some c) (tempSmallRef r) (tempLargeRef r).

Definition step (st : Hist * Refs) (cmd : Command) : Hist * Refs :=
  match cmd with
  | Draw c => (fst st, set_full c (snd st))
  | Snapshot => (pushHistory (snd st) (fst st), snd st)
  | Undo => undo (fst st) (snd st)
  | Redo => redo (fst st) (snd st)
  end.

Definition run (cmds : list Command) (st : Hist * Refs) : Hist * Refs :=
  fold_left step cmds st.

(** [n] snapshots, the [k]-th taken of the canvas [cs k]. *)
Definition snapshots (cs : nat -> Canvas) (n : nat) : list Command :=
  k ← seq 0 n; [Draw (cs k); Snapshot].

(** The history of a fresh session. *)
Definition empty_hist : Hist := mkHist [] (-1).

End Program.

(** What the program takes for granted of the browser: a draw at the
    source's own size resamples nothing, neutral slider values filter
    nothing, and compositing onto a cleared bitmap gives the drawn image. *)
Class PlatformLaws (P : Platform) : Prop := {
  resample_same_size : forall b im,
    resample b im (width im) (height im) = data im;
  cssFilter_neutral : forall fl im,
    isNoOp fl = true -> cssFilterPixels fl im = data im;
  sourceOver_blank : forall im,
    sourceOver im (blank (width im) (height im)) = data im
}.

(** ** A reference platform

    An executable instance of the browser operations, used to run the
    program on concrete rasters: centre-sampled nearest-neighbour resampling,
    the invert filter alone, opaque compositing, exact luma and a
    byte-per-character encoding of snapshots. *)

Module Reference.

Definition nn_pixel (src : ImageData) (dw dh x y : Z) : list Z :=
  let sx := ((2 * x + 1) * width src) / (2 * dw) in
  let sy := ((2 * y + 1) * height src) / (2 * dh) in
  let o := (sy * width src + sx) * 4 in
  (fun c => default 0 (js_get (data src) (o + c))) <$> [0; 1; 2; 3].

Definition nn (src : ImageData) (dw dh : Z) : list Z :=
  y ← seqZ 0 dh; x ← seqZ 0 dw; nn_pixel src dw dh x y.

Definition resample (smooth : bool) (src : ImageData) (dw dh : Z) : list Z :=
  if (dw =? width src) && (dh =? height src) then data src else nn src dw dh.

Definition invert_channel (amount : Q) (i : nat) (v : Z) : Z :=
  if (Z.of_nat i mod 4 =? 3) then v
  else toUint8Clamped
         (Some (inject_Z v + (255 - 2 * inject_Z v) * amount / 100)%Q).

Definition cssFilterPixels (fl : Filters) (im : ImageData) : list Z :=
  if isNoOp fl then data im else imap (invert_channel (invert fl)) (data im).

Definition sourceOver (src dst : ImageData) : list Z := data src.

Definition luma8 (r g b : Z) : Z :=
  toUint8Clamped
    (Some ((299 # 1000) * inject_Z r + (587 # 1000) * inject_Z g
           + (114 # 1000) * inject_Z b)%Q).

Definition toDataURL (im : ImageData) : string :=
  string_of_list_ascii
    ((fun v => Ascii.ascii_of_nat (Z.to_nat v)) <$> (width im :: height im :: data im)).

Definition decodeDataURL (url : string) : option ImageData :=
  match (fun a => Z.of_nat (Ascii.nat_of_ascii a)) <$> list_ascii_of_string url with
  | w :: h :: d => Some (mkImageData w h d)
  | _ => None
  end.

End Reference.

#[global] Instance reference_platform : Platform := {
  resample := Reference.resample;
  cssFilterPixels := Reference.cssFilterPixels;
  sourceOver := Reference.sourceOver;
  luma8 := Reference.luma8;
  toDataURL := Reference.toDataURL;
  decodeDataURL := Reference.decodeDataURL
}.

(** Sample data: a 2 x 2 and a 4 x 4 opaque red raster, and a working canvas
    holding each. *)
Definition red2 : ImageData :=
  mkImageData 2 2 (mjoin (replicate 4 [255; 0; 0; 255])).
Definition red4 : ImageData :=
  mkImageData 4 4 (mjoin (replicate 16 [255; 0; 0; 255])).
Definition canvas_of (im : ImageData) : Canvas := mkCanvas im true None.
Definition refs_of (im : ImageData) : Refs := mkRefs (Some (canvas_of im)) None None.

(** Sample slider values: everything neutral but [invert] and [pixelate]. *)
Definition sliders (inv : Q) (px : Z) : Filters :=
  mkFilters 100 100 100 0 0 0 inv 0 px.
Definition view_of (im : ImageData) (fl : Filters) : View :=
  mkView (Some im) fl false "None" false.

(** ** The rest of the component *)

(** *** The slider *)

(** [Math.round]: the nearest integer, ties towards plus infinity. *)
Definition js_round (q : Q) : Z := Qfloor (q + (1 # 2)).

(** [clamp(v, a, b) = Math.min(b, Math.max(a, v))]. *)
Definition clamp (v a b : Q) : Q := qmin b (qmax a v).

(** [snap]: [s = Number(step) || 1], [Math.round(v / s) * s]. *)
Definition snap (step v : Q) : Q :=
  let s := if Qeq_bool step 0 then 1%Q else step in
  (inject_Z (js_round (v / s)) * s)%Q.

(** [clamp((clientX - rect.left) / rect.width, 0, 1)]. A track of width 0
    divides by zero: the quotient is plus or minus infinity, clamped to 1 or
    0, or NaN ([None]) for 0/0. *)
Definition pointer_ratio (left_ width_ clientX : Q) : num :=
  let d := (clientX - left_)%Q in
  if Qeq_bool width_ 0 then
    if Qeq_bool d 0 then None
    else if Qle_bool 0 d then Some 1%Q else Some 0%Q
  else Some (clamp (d / width_) 0 1).

(** [setFromX]: the value handed to [onChange]; [rect] is [None] when the
    track element is missing, and then nothing is emitted. *)
Definition setFromX (rect : option (Q * Q)) (min_ max_ step clientX : Q) : option num :=
  match rect with
  | None => None
  | Some (left_, width_) =>
      Some ((fun ratio => snap step (min_ + ratio * (max_ - min_))%Q)
              <$> pointer_ratio left_ width_ clientX)
  end.

(** [onKeyDown]: the value handed to [onChange], if any. *)
Definition onKeyDown (key : string) (value min_ max_ step : Q) : option Q :=
  if String.eqb key "ArrowRight" || String.eqb key "ArrowUp" then
    Some (clamp (snap step (value + step)) min_ max_)
  else if String.eqb key "ArrowLeft" || String.eqb key "ArrowDown" then
    Some (clamp (snap step (value + - step)) min_ max_)
  else if String.eqb key "Home" then Some min_
  else if String.eqb key "End" then Some max_
  else None.

(** *** Reset and presets *)

Definition resetFilters : Filters := mkFilters 100 100 100 0 0 0 0 0 1.

(** [applyPreset]: each preset overwrites the sliders it names and copies
    the others from the previous state [p]; a name without an entry calls
    nothing. *)
Definition applyPreset (name : string) (p : Filters) : Filters :=
  if String.eqb name "Original" then resetFilters
  else if String.eqb name "Warm" then
    mkFilters 102 105 120 (-10) 0 10 0 0 (pixelate p)
  else if String.eqb name "Cool" then
    mkFilters 100 105 105 12 0 0 0 0 (pixelate p)
  else if String.eqb name "Vintage" then
    mkFilters 102 95 85 (-5) 0 25 0 (1 # 2) (pixelate p)
  else if String.eqb name "B&W" then
    mkFilters (brightness p) 110 0 (hue p) 100 0 0 0 (pixelate p)
  else if String.eqb name "Dramatic" then
    mkFilters (brightness p) 130 90 (hue p) 20 (sepia p) (invert p) 0 (pixelate p)
  else p.

(** *** Preview sizing *)

(** [getDisplaySize] for a canvas of non-zero width: [clientWidth] is that
    of the preview holder, [None] when the holder is missing. *)
Definition getDisplaySize (clientWidth : option Z) (fitToWidth : bool)
    (full : ImageData) : Z * Z :=
  let pad := 16 in
  let cw := match clientWidth with
            | Some c => if c =? 0 then 1000 else c
            | None => 1000
            end in
  let maxW := cw - pad * 2 in
  let scale := if fitToWidth
               then qmin 1 (inject_Z maxW / inject_Z (width full))
               else 1%Q in
  (js_round (inject_Z (width full) * scale),
   js_round (inject_Z (height full) * scale)).

(** [Math.max(1, Math.floor(window.devicePixelRatio || 1))]. *)
Definition device_ratio (devicePixelRatio : Q) : Z :=
  Z.max 1 (Qfloor (if Qeq_bool devicePixelRatio 0 then 1%Q else devicePixelRatio)).

(** The sizes [syncPreview] gives the preview canvas: the backing store
    ([prev.width], [prev.height]) and the CSS box. *)
Record PreviewSize := mkPreviewSize {
  prev_width : Z;
  prev_height : Z;
  css_width : Z;
  css_height : Z
}.

Definition preview_size (devicePixelRatio zoom : Q) (display : Z * Z) : PreviewSize :=
  let dpr := inject_Z (device_ratio devicePixelRatio) in
  let displayW := inject_Z (fst display) in
  let displayH := inject_Z (snd display) in
  mkPreviewSize (Z.max 1 (Qfloor (displayW * zoom * dpr)))
                (Z.max 1 (Qfloor (displayH * zoom * dpr)))
                (Z.max 1 (Qfloor (displayW * zoom)))
                (Z.max 1 (Qfloor (displayH * zoom))).

(** *** Image load and redraw *)

Section Component.
Context `{Platform}.

(** The [onload] handler of the image effect. [captured] is the React state
    of the render that started the load, which the handler's [drawFull]
    still reads, and [capturedIndex] the [hIndex] seen by that render's
    [pushHistory]; [setImg] shows only in the next render. *)
Definition onload (captured : View) (capturedIndex : Z) (image : ImageData)
    (r : Refs) (s : Hist) : Outcome (Refs * Hist) :=
  let full := default newCanvas (fullRef r) in
  let full := setSize (width image) (height image) full in
  let r := mkRefs (Some full) (tempSmallRef r) (tempLargeRef r) in
  r ← drawFull captured r;
  Done (r, pushHistory_captured capturedIndex r s).

(** The redraw effect, run after a change of [img], [f], [edgeDetect],
    [kernelName] or [showOriginal]. *)
Definition redraw (v : View) (r : Refs) : Outcome Refs :=
  match img v with
  | None => Done r
  | Some _ => drawFull v r
  end.

(** The luma of the pixel [(x, y)], and the two Sobel gradients over the
    luma field around it. *)
Definition luma_at (im : ImageData) (x y : Z) : Z :=
  gray_val im (y * width im + x).

Definition sobel_gx (im : ImageData) (x y : Z) : Z :=
  (luma_at im (x + 1) (y - 1) - luma_at im (x - 1) (y - 1))
  + 2 * (luma_at im (x + 1) y - luma_at im (x - 1) y)
  + (luma_at im (x + 1) (y + 1) - luma_at im (x - 1) (y + 1)).

Definition sobel_gy (im : ImageData) (x y : Z) : Z :=
  (luma_at im (x - 1) (y + 1) + 2 * luma_at im x (y + 1) + luma_at im (x + 1) (y + 1))
  - (luma_at im (x - 1) (y - 1) + 2 * luma_at im x (y - 1) + luma_at im (x + 1) (y - 1)).

(** [n] presses of undo. *)
Definition undo_n (n : nat) (st : Hist * Refs) : Hist * Refs :=
  Nat.iter n (fun st => undo (fst st) (snd st)) st.

(** *** A session

    The history, the canvases and the view of the latest render, together
    with the image load in flight. The load effect runs in the render that
    follows [setImgUrl] and builds the [onload] handler there; its
    dependency list is [imgUrl] alone, so the handler keeps the view and the
    [hIndex] of that render, whatever happens before the image arrives. *)
Record Pending := mkPending {
  capturedView : View;
  capturedIndex : Z;
  pendingImage : ImageData
}.

Record Session := mkSession {
  hist : Hist;
  refs : Refs;
  view : View;
  loading : option Pending
}.

(** What the user and the browser do: choosing a file ([onFile], [onDrop]),
    the [load] event of the chosen image, and the three history buttons. *)
Inductive Event :=
| Choose (image : ImageData)
| Loaded
| PressSnapshot
| PressUndo
| PressRedo.

(** [setImg(image)] *)
Definition set_img (image : ImageData) (v : View) : View :=
  mkView (Some image) (f v) (edgeDetect v) (kernelName v) (showOriginal v).

(** One event. [Loaded] runs the [onload] handler with what it captured and
    then, in the render that [setImg] causes, the redraw effect. *)
Definition handle (st : Session) (ev : Event) : Outcome Session :=
  match ev with
  | Choose image =>
      Done (mkSession (hist st) (refs st) (view st)
              (Some (mkPending (view st) (hIndex (hist st)) image)))
  | Loaded =>
      match loading st with
      | None => Done st
      | Some p =>
          rh ← onload (capturedView p) (capturedIndex p) (pendingImage p)
                      (refs st) (hist st);
          r ← redraw (set_img (pendingImage p) (view st)) (fst rh);
          Done (mkSession (snd rh) r (set_img (pendingImage p) (view st)) None)
      end
  | PressSnapshot =>
      Done (mkSession (pushHistory (refs st) (hist st)) (refs st) (view st)
              (loading st))
  | PressUndo =>
      Done (mkSession (fst (undo (hist st) (refs st)))
              (snd (undo (hist st) (refs st))) (view st) (loading st))
  | PressRedo =>
      Done (mkSession (fst (redo (hist st) (refs st)))
              (snd (redo (hist st) (refs st))) (view st) (loading st))
  end.

(** A sequence of events; an exception in a handler ends it. *)
Definition session (evs : list Event) (st : Session) : Outcome Session :=
  fold_left (fun o ev => st ← o; handle st ev) evs (Done st).

(** The component as mounted: no image, default sliders, empty history. *)
Definition fresh : Session :=
  mkSession empty_hist (mkRefs None None None)
            (mkView None resetFilters false "None" false) None.

End Component.

(** Further sample data: a 3 x 3 raster with a bright centre and a view with
    an effect switched on. *)
Definition dot3 : ImageData :=
  mkImageData 3 3
    (mjoin (replicate 4 [10; 20; 30; 255]) ++ [200; 100; 50; 128] ++
     mjoin (replicate 4 [10; 20; 30; 255])).
Definition gray3 : ImageData :=
  mkImageData 3 3 (mjoin (replicate 9 [40; 80; 120; 255])).

(** A 3x3 gray image and a kernel whose weights, divided by their sum 10,
    are not exact in doubles. *)
Definition ramp3 : ImageData :=
  mkImageData 3 3
    (mjoin ((fun v => [v; v; v; 255]) <$> [117; 90; 92; 46; 130; 16; 36; 42; 8])).
Definition heavy_corner : list number := of_int <$> [1; 1; 1; 1; 1; 1; 1; 1; 2].

(** A byte of a pixel buffer. *)
Definition is_byte (v : Z) : Prop := 0 <= v <= 255.

(** The kernel used for a name that is none of the three effects. *)
Definition identity_kernel : list number := of_int <$> [0; 0; 0; 0; 1; 0; 0; 0; 0].

(** The checks that a byte [v] survives, as a double, the operations the
    identity kernel performs on it. *)
Definition byte_exact (v : Z) : bool :=
  bool_decide (fmul (of_int 0) (of_int v) = of_int 0) &&
  bool_decide (fmul (of_int 1) (of_int v) = of_int v) &&
  bool_decide (fadd (of_int 0) (of_int v) = of_int v) &&
  bool_decide (fadd (of_int v) (of_int 0) = of_int v) &&
  (ToUint8Clamp (clamp255 (of_int v)) =? v).

(** A kernel whose weights sum to 0 in doubles ([2^53 + 1] rounds to
    [2^53]), and whose products absorb the small term. *)
Definition absorbing_kernel : list number :=
  of_int <$> [2 ^ 53; 1; - 2 ^ 53; 0; 0; 0; 0; 0; 0].

(** The weighted sum of nine neighbours that all hold [v], in the order of
    the loops. *)
Definition flat_sum (kernel : list number) (v : Z) : number :=
  fold_left (fun a p => fadd a (fmul (weight kernel p) (of_int v)))
            (seq 0 9) (of_int 0).


(** ** The history *)

Section HistoryFacts.
Context `{Platform}.

Lemma js_slice_prefix {A : Type} (l : list A) (k : Z) :
  0 <= k -> js_slice l 0 (Some k) = take (Z.to_nat k) l.
Proof.
  intros Hk. unfold js_slice, js_rel.
  replace (0 <? 0) with false by reflexivity.
  destruct (Z.ltb_spec k 0) as [?|_]; [lia|].
  rewrite (Z.min_l 0) by lia. rewrite Z.sub_0_r.
  change (Z.to_nat 0) with 0%nat. rewrite drop_0.
  destruct (Z.le_ge_cases k (Z.of_nat (length l))) as [Hle|Hge].
  - rewrite Z.min_l by lia. reflexivity.
  - rewrite Z.min_r by lia. rewrite Nat2Z.id.
    rewrite (take_ge l (length l)) by lia.
    rewrite (take_ge l (Z.to_nat k)) by lia. reflexivity.
Qed.

Lemma js_slice_last {A : Type} (l : list A) (n : Z) :
  0 < n -> js_slice l (- n) None = drop (length l - Z.to_nat n) l.
Proof.
  intros Hn. unfold js_slice, js_rel.
  destruct (Z.ltb_spec (- n) 0) as [_|?]; [|lia].
  rewrite take_ge.
  - f_equal. lia.
  - rewrite length_drop. lia.
Qed.

Lemma pushHistory_some (r : Refs) (s : Hist) (full : Canvas) :
  fullRef r = Some full ->
  -1 <= hIndex s ->
  pushHistory r s =
    mkHist (drop (length (take (Z.to_nat (hIndex s + 1)) (history s) ++
                          [toDataURL (bitmap full)]) - 20)
                 (take (Z.to_nat (hIndex s + 1)) (history s) ++
                  [toDataURL (bitmap full)]))
           (Z.min (hIndex s + 1) 19).
Proof.
  intros Hf Hi. unfold pushHistory, pushHistory_captured. rewrite Hf.
  cbv zeta. rewrite js_slice_prefix by lia.
  rewrite (js_slice_last _ 20) by lia. reflexivity.
Qed.

Lemma pushHistory_inv (r : Refs) (s : Hist) :
  hist_inv s -> hist_inv (pushHistory r s).
Proof.
  intros [Hi Hl]. destruct (fullRef r) as [full|] eqn:Hf.
  - rewrite (pushHistory_some r s full) by (auto; lia).
    unfold hist_inv; simpl.
    rewrite length_drop, length_app, length_take. simpl. lia.
  - unfold pushHistory, pushHistory_captured. rewrite Hf. split; assumption.
Qed.

Lemma undo_inv (s : Hist) (r : Refs) : hist_inv s -> hist_inv (fst (undo s r)).
Proof.
  intros [Hi Hl]. unfold undo. destruct (0 <? hIndex s) eqn:E; simpl.
  - apply Z.ltb_lt in E. unfold hist_inv; simpl. lia.
  - split; assumption.
Qed.

Lemma redo_inv (s : Hist) (r : Refs) : hist_inv s -> hist_inv (fst (redo s r)).
Proof.
  intros [Hi Hl]. unfold redo.
  destruct (hIndex s <? Z.of_nat (length (history s)) - 1) eqn:E; simpl.
  - apply Z.ltb_lt in E. unfold hist_inv; simpl. lia.
  - split; assumption.
Qed.

Lemma step_inv (st : Hist * Refs) (cmd : Command) :
  hist_inv (fst st) -> hist_inv (fst (step st cmd)).
Proof.
  intros Hinv. destruct cmd; simpl.
  - assumption.
  - apply pushHistory_inv, Hinv.
  - apply undo_inv, Hinv.
  - apply redo_inv, Hinv.
Qed.

Lemma run_inv (cmds : list Command) :
  forall st, hist_inv (fst st) -> hist_inv (fst (run cmds st)).
Proof.
  induction cmds as [|cmd cmds IH]; intros st Hinv; simpl.
  - assumption.
  - apply IH, step_inv, Hinv.
Qed.

Lemma pushHistory_full (r : Refs) (s : Hist) (full : Canvas) :
  hist_inv s -> fullRef r = Some full -> hIndex s = 19 ->
  pushHistory r s =
    mkHist (drop 1 (history s) ++ [toDataURL (bitmap full)]) 19.
Proof.
  intros [Hi Hl] Hf H19.
  rewrite (pushHistory_some r s full) by (auto; lia).
  rewrite H19. change (Z.to_nat (19 + 1)) with 20%nat.
  rewrite take_ge by lia. rewrite length_app. simpl length.
  replace (length (history s) + 1 - 20)%nat with 1%nat by lia.
  destruct (history s) as [|e l]; [simpl in Hi; lia|]. reflexivity.
Qed.

(** The history buttons keep the invariant: their callbacks are rebuilt
    whenever [hIndex] changes, so whatever sequence of Snapshot, Undo and Redo
    presses (and redraws) is run from the empty history, the cursor stays
    within [-1, length - 1] and at most 20 entries are kept; a push on a
    history whose cursor is on the twentieth entry drops the oldest entry and
    appends the new one. *)
Theorem history_invariant (cmds : list Command) (r : Refs) :
  let st := run cmds (empty_hist, r) in
  hist_inv (fst st) /\
  (forall full, fullRef (snd st) = Some full -> hIndex (fst st) = 19 ->
     pushHistory (snd st) (fst st) =
       mkHist (drop 1 (history (fst st)) ++ [toDataURL (bitmap full)]) 19).
Proof.
  intros st.
  assert (Hinv : hist_inv (fst st)).
  { apply run_inv. unfold hist_inv, empty_hist; simpl. lia. }
  split; [exact Hinv|].
  intros full Hf H19. apply pushHistory_full; assumption.
Qed.

(** C5. Twenty-five snapshots pushed on a fresh history leave exactly the
    twenty newest (the five oldest are gone), in order, with the cursor on
    the newest, at index 19. *)
Theorem push_25_keeps_20 (cs : nat -> Canvas) (r : Refs) :
  fst (run (snapshots cs 25) (empty_hist, r)) =
    mkHist ((fun k => toDataURL (bitmap (cs k))) <$> seq 5 20) 19.
Proof.
  vm_compute. reflexivity.
Qed.



(** C10. Undo and redo leave the list of stored entries exactly as it was;
    the working canvas is either untouched or redrawn from an entry that the
    list already holds. *)
Theorem undo_redo_keep_entries (s : Hist) (r : Refs) :
  history (fst (undo s r)) = history s /\
  history (fst (redo s r)) = history s /\
  (snd (undo s r) = r \/
   exists e, e ∈ history s /\ snd (undo s r) = restoreFromDataURL (Some e) r) /\
  (snd (redo s r) = r \/
   exists e, e ∈ history s /\ snd (redo s r) = restoreFromDataURL (Some e) r).
Proof.
  assert (Hget : forall i, js_get (history s) i = None \/
                   exists e, e ∈ history s /\ js_get (history s) i = Some e).
  { intros i. destruct (js_get (history s) i) as [e|] eqn:E; [right|left; reflexivity].
    exists e. split; [|reflexivity]. unfold js_get in E.
    destruct (i <? 0); [discriminate|].
    apply list_elem_of_lookup. eauto. }
  unfold undo, redo. repeat split.
  - destruct (0 <? hIndex s); reflexivity.
  - destruct (hIndex s <? Z.of_nat (length (history s)) - 1); reflexivity.
  - destruct (0 <? hIndex s); simpl; [|left; reflexivity].
    destruct (Hget (hIndex s - 1)) as [E|(e & Hin & E)]; rewrite E.
    + left. reflexivity.
    + right. exists e. split; [assumption|reflexivity].
  - destruct (hIndex s <? Z.of_nat (length (history s)) - 1); simpl;
      [|left; reflexivity].
    destruct (Hget (hIndex s + 1)) as [E|(e & Hin & E)]; rewrite E.
    + left. reflexivity.
    + right. exists e. split; [assumption|reflexivity].
Qed.

End HistoryFacts.


(** ** Stores into a pixel array *)

Lemma js_set_length {A : Type} (d : list A) (i : Z) (v : A) :
  length (js_set d i v) = length d.
Proof.
  unfold js_set. destruct (i <? 0); [reflexivity | apply length_insert].
Qed.

Lemma js_get_set {A : Type} (d : list A) (i j : Z) (v : A) :
  0 <= i < Z.of_nat (length d) -> 0 <= j ->
  js_get (js_set d i v) j = if decide (j = i) then Some v else js_get d j.
Proof.
  intros Hi Hj. unfold js_get, js_set.
  destruct (Z.ltb_spec i 0) as [?|_]; [lia|].
  destruct (Z.ltb_spec j 0) as [?|_]; [lia|].
  destruct (decide (j = i)) as [->|Hne].
  - apply list_lookup_insert_eq. lia.
  - apply list_lookup_insert_ne. lia.
Qed.

Lemma js_get_replicate (n : nat) (v i : Z) :
  0 <= i < Z.of_nat n -> js_get (replicate n v) i = Some v.
Proof.
  intros Hi. unfold js_get. destruct (Z.ltb_spec i 0) as [?|_]; [lia|].
  apply lookup_replicate_2. lia.
Qed.

Lemma js_get_is_Some {A : Type} (d : list A) (i : Z) :
  0 <= i < Z.of_nat (length d) -> exists v, js_get d i = Some v.
Proof.
  intros Hi. unfold js_get. destruct (Z.ltb_spec i 0) as [?|_]; [lia|].
  apply lookup_lt_is_Some_2. lia.
Qed.

Lemma write_px_length (o v0 v1 v2 v3 : Z) (d : list Z) :
  length (write_px o v0 v1 v2 v3 d) = length d.
Proof. unfold write_px. rewrite !js_set_length. reflexivity. Qed.

Lemma write_px_get (o v0 v1 v2 v3 : Z) (d : list Z) (j : Z) :
  0 <= o -> o + 4 <= Z.of_nat (length d) -> 0 <= j ->
  js_get (write_px o v0 v1 v2 v3 d) j =
    if decide (o <= j < o + 4) then Some (pick v0 v1 v2 v3 (j - o))
    else js_get d j.
Proof.
  intros Ho Hlen Hj. unfold write_px.
  rewrite !js_get_set by (rewrite ?js_set_length; lia).
  repeat (destruct (decide _) as [?|?]); subst; try lia;
    rewrite ?Z.add_simpl_l; reflexivity.
Qed.

(** The flat index of channel [c] of pixel [(x, y)] is in range, and two
    pixels do not share an index. *)
Lemma index_bounds (w h x y c : Z) :
  0 <= x < w -> 0 <= y < h -> 0 <= c < 4 ->
  0 <= (y * w + x) * 4 + c < w * h * 4.
Proof. intros Hx Hy Hc. nia. Qed.

Lemma index_inj (w x y c x' y' c' : Z) :
  0 <= x < w -> 0 <= x' < w -> 0 <= c < 4 -> 0 <= c' < 4 ->
  (y * w + x) * 4 + c = (y' * w + x') * 4 + c' ->
  x = x' /\ y = y' /\ c = c'.
Proof.
  intros Hx Hx' Hc Hc' E.
  assert (y * w + x = y' * w + x') by lia.
  assert (c = c') by lia.
  assert (y = y') by nia.
  subst. lia.
Qed.

Section Paint.
Variables (w h : Z) (val : Z -> Z -> Z -> Z).

Lemma paint_length (y x : Z) (d : list Z) :
  length (paint w val y d x) = length d.
Proof. apply write_px_length. Qed.

Lemma paint_get (y x : Z) (d : list Z) (x' y' c : Z) :
  Z.of_nat (length d) = w * h * 4 ->
  0 <= x < w -> 0 <= y < h -> 0 <= x' < w -> 0 <= y' < h -> 0 <= c < 4 ->
  js_get (paint w val y d x) ((y' * w + x') * 4 + c) =
    if decide (x' = x /\ y' = y) then Some (val x y c)
    else js_get d ((y' * w + x') * 4 + c).
Proof.
  intros Hlen Hx Hy Hx' Hy' Hc. unfold paint.
  pose proof (index_bounds w h x y 0 Hx Hy ltac:(lia)) as B0.
  pose proof (index_bounds w h x y 3 Hx Hy ltac:(lia)) as B3.
  pose proof (index_bounds w h x' y' c Hx' Hy' Hc) as B.
  rewrite write_px_get by lia.
  destruct (decide (x' = x /\ y' = y)) as [[-> ->]|Hne].
  - destruct (decide _) as [_|?]; [|lia].
    replace ((y * w + x) * 4 + c - (y * w + x) * 4) with c by lia.
    assert (c = 0 \/ c = 1 \/ c = 2 \/ c = 3) as [->|[->|[->| ->]]] by lia;
      reflexivity.
  - destruct (decide _) as [Hin|_]; [|reflexivity].
    exfalso. apply Hne.
    destruct (index_inj w x' y' c x y ((y' * w + x') * 4 + c - (y * w + x) * 4))
      as (? & ? & _); lia.
Qed.

Lemma paint_row_length (y : Z) (xs : list Z) :
  forall d, length (fold_left (paint w val y) xs d) = length d.
Proof.
  induction xs as [|x xs IH]; intros d; simpl; [reflexivity|].
  rewrite IH. apply paint_length.
Qed.

Lemma paint_row_get (y : Z) (xs : list Z) :
  0 <= y < h -> Forall (fun x => 0 <= x < w) xs ->
  forall d x' y' c,
    Z.of_nat (length d) = w * h * 4 ->
    0 <= x' < w -> 0 <= y' < h -> 0 <= c < 4 ->
    js_get (fold_left (paint w val y) xs d) ((y' * w + x') * 4 + c) =
      if decide (x' ∈ xs /\ y' = y) then Some (val x' y' c)
      else js_get d ((y' * w + x') * 4 + c).
Proof.
  intros Hy Hxs. induction Hxs as [|x xs Hx Hxs IH]; intros d x' y' c Hlen Hx' Hy' Hc.
  - cbn [fold_left].
    destruct (decide (x' ∈ [] /\ y' = y)) as [[Hin _]|_]; [|reflexivity].
    apply elem_of_nil in Hin. contradiction.
  - cbn [fold_left]. rewrite IH by (rewrite ?paint_length; assumption).
    rewrite paint_get by assumption.
    destruct (decide (x' ∈ xs /\ y' = y)) as [[Hin ->]|Hnot].
    + destruct (decide (x' ∈ x :: xs /\ y = y)) as [_|Hn]; [reflexivity|].
      exfalso. apply Hn. split; [right; assumption|reflexivity].
    + destruct (decide (x' = x /\ y' = y)) as [[-> ->]|Hne].
      * destruct (decide (x ∈ x :: xs /\ y = y)) as [_|Hn]; [reflexivity|].
        exfalso. apply Hn. split; [left|reflexivity].
      * destruct (decide (x' ∈ x :: xs /\ y' = y)) as [[Hin ->]|_]; [|reflexivity].
        exfalso. apply elem_of_cons in Hin as [->|Hin].
        -- apply Hne. auto.
        -- apply Hnot. auto.
Qed.

Lemma paint_all_length (xs ys : list Z) :
  forall d, length (paint_all w val xs ys d) = length d.
Proof.
  unfold paint_all. induction ys as [|y ys IH]; intros d; simpl; [reflexivity|].
  rewrite IH. apply paint_row_length.
Qed.

Lemma paint_all_get (xs ys : list Z) :
  Forall (fun x => 0 <= x < w) xs -> Forall (fun y => 0 <= y < h) ys ->
  forall d x' y' c,
    Z.of_nat (length d) = w * h * 4 ->
    0 <= x' < w -> 0 <= y' < h -> 0 <= c < 4 ->
    js_get (paint_all w val xs ys d) ((y' * w + x') * 4 + c) =
      if decide (x' ∈ xs /\ y' ∈ ys) then Some (val x' y' c)
      else js_get d ((y' * w + x') * 4 + c).
Proof.
  intros Hxs Hys. unfold paint_all.
  induction Hys as [|y ys Hy Hys IH]; intros d x' y' c Hlen Hx' Hy' Hc.
  - cbn [fold_left].
    destruct (decide (x' ∈ xs /\ y' ∈ [])) as [[_ Hin]|_]; [|reflexivity].
    apply elem_of_nil in Hin. contradiction.
  - cbn [fold_left]. rewrite IH by (rewrite ?paint_row_length; assumption).
    rewrite paint_row_get by assumption.
    destruct (decide (x' ∈ xs /\ y' ∈ ys)) as [[Hin Hin']|Hnot].
    + destruct (decide (x' ∈ xs /\ y' ∈ y :: ys)) as [_|Hn]; [reflexivity|].
      exfalso. apply Hn. split; [assumption|right; assumption].
    + destruct (decide (x' ∈ xs /\ y' = y)) as [[Hin ->]|Hne].
      * destruct (decide (x' ∈ xs /\ y ∈ y :: ys)) as [_|Hn]; [reflexivity|].
        exfalso. apply Hn. split; [assumption|left].
      * destruct (decide (x' ∈ xs /\ y' ∈ y :: ys)) as [[Hin Hin']|_]; [|reflexivity].
        exfalso. apply elem_of_cons in Hin' as [->|Hin'].
        -- apply Hne. auto.
        -- apply Hnot. auto.
Qed.

(** A pixel loop that visits no column or no row stores nothing. *)
Lemma paint_all_nothing (xs ys : list Z) (d : list Z) :
  xs = [] \/ ys = [] -> paint_all w val xs ys d = d.
Proof.
  intros [-> | ->]; unfold paint_all; [|reflexivity].
  induction ys as [|y ys IH]; simpl; [reflexivity | exact IH].
Qed.

End Paint.

(** ** Rounding into a byte *)

Example toUint8Clamped_ties :
  toUint8Clamped (Some (1 # 2)) = 0 /\ toUint8Clamped (Some (3 # 2)) = 2 /\
  toUint8Clamped (Some (5 # 2)) = 2 /\ toUint8Clamped (Some (2549 # 10)) = 255 /\
  toUint8Clamped (Some (-3)%Q) = 0 /\ toUint8Clamped (Some 300%Q) = 255 /\
  toUint8Clamped None = 0.
Proof. repeat split; reflexivity. Qed.

Example hypot8_samples :
  hypot8 3 4 = 5 /\ hypot8 1 1 = 1 /\ hypot8 1 2 = 2 /\ hypot8 (-2) 2 = 3 /\
  hypot8 300 0 = 255 /\ hypot8 0 0 = 0.
Proof. repeat split; reflexivity. Qed.

(** [(isqrt(4n) + 1) / 2] is the integer nearest to the square root of [n]:
    [r - 1/2 <= sqrt n < r + 1/2], stated on the squares. *)
Lemma nearest_sqrt (n : Z) :
  0 <= n ->
  let r := (Z.sqrt (4 * n) + 1) / 2 in
  0 <= r /\ 4 * n < (2 * r + 1) * (2 * r + 1) /\
  (0 < r -> (2 * r - 1) * (2 * r - 1) <= 4 * n).
Proof.
  intros Hn r.
  pose proof (Z.sqrt_spec (4 * n) ltac:(lia)) as [Hlo Hhi].
  unfold Z.succ in Hhi.
  pose proof (Z.sqrt_nonneg (4 * n)) as Hs.
  pose proof (Z.div_mod (Z.sqrt (4 * n) + 1) 2 ltac:(lia)) as Hdiv.
  pose proof (Z.mod_pos_bound (Z.sqrt (4 * n) + 1) 2 ltac:(lia)) as Hmod.
  fold r in Hdiv.
  assert (Hcase : Z.sqrt (4 * n) = 2 * r - 1 \/ Z.sqrt (4 * n) = 2 * r) by lia.
  split; [lia|].
  destruct Hcase as [E|E]; rewrite E in Hlo, Hhi; split; nia.
Qed.

Lemma pick_channels (v0 v1 v2 v3 : Z) :
  pick v0 v1 v2 v3 0 = v0 /\ pick v0 v1 v2 v3 1 = v1 /\
  pick v0 v1 v2 v3 2 = v2 /\ pick v0 v1 v2 v3 3 = v3.
Proof. repeat split; reflexivity. Qed.

Lemma paint_pick (w : Z) (m0 m1 m2 m3 : Z -> Z -> Z) (y : Z) (d : list Z) (x : Z) :
  paint w (fun x y c => pick (m0 x y) (m1 x y) (m2 x y) (m3 x y) c) y d x =
    write_px ((y * w + x) * 4) (m0 x y) (m1 x y) (m2 x y) (m3 x y) d.
Proof. reflexivity. Qed.

Lemma fold_left_pointwise {A B : Type} (g1 g2 : A -> B -> A) (l : list B) :
  (forall a b, g1 a b = g2 a b) ->
  forall a, fold_left g1 l a = fold_left g2 l a.
Proof.
  intros Hg. induction l as [|b l IH]; intros a; cbn [fold_left]; [reflexivity|].
  rewrite Hg. apply IH.
Qed.

Lemma pixel_loops_paint (w : Z) (val : Z -> Z -> Z -> Z)
    (body : Z -> list Z -> Z -> list Z) (xs ys : list Z) (d : list Z) :
  (forall y d x, body y d x = paint w val y d x) ->
  fold_left (fun d y => fold_left (body y) xs d) ys d = paint_all w val xs ys d.
Proof.
  intros Hbody. unfold paint_all. apply fold_left_pointwise.
  intros d' y. apply fold_left_pointwise. intros d'' x. apply Hbody.
Qed.

(** ** Convolution *)

Section KernelFacts.

Lemma applyKernel_paint (canvas : Canvas) (kernel : list number) :
  width (bitmap canvas) <> 0 -> height (bitmap canvas) <> 0 ->
  applyKernel canvas kernel =
    Done (putImageData
            (mkImageData (width (bitmap canvas)) (height (bitmap canvas))
               (paint_all (width (bitmap canvas))
                  (kernel_val (kernel_weights kernel) (bitmap canvas))
                  (seqZ 1 (width (bitmap canvas) - 2))
                  (seqZ 1 (height (bitmap canvas) - 2))
                  (data (blank (width (bitmap canvas)) (height (bitmap canvas))))))
            canvas).
Proof.
  intros Hw Hh. unfold applyKernel, getImageData, createImageData.
  destruct (Z.eqb_spec (width (bitmap canvas)) 0) as [?|_]; [contradiction|].
  destruct (Z.eqb_spec (height (bitmap canvas)) 0) as [?|_]; [contradiction|].
  cbn [orb mbind Outcome_bind].
  rewrite (pixel_loops_paint (width (bitmap canvas))
             (kernel_val (kernel_weights kernel) (bitmap canvas))); [reflexivity|].
  intros y d x.
  exact (eq_sym (paint_pick (width (bitmap canvas))
    (fun x y => ToUint8Clamp (clamp255 (acc_r
       (kernel_taps (kernel_weights kernel) (bitmap canvas) x y))))
    (fun x y => ToUint8Clamp (clamp255 (acc_g
       (kernel_taps (kernel_weights kernel) (bitmap canvas) x y))))
    (fun x y => ToUint8Clamp (clamp255 (acc_b
       (kernel_taps (kernel_weights kernel) (bitmap canvas) x y))))
    (fun _ _ => 255) y d x)).
Qed.

(** One pass of the inner loop adds, to each accumulator, the product of
    weight [p] and the channel read, both operations on doubles. *)
Lemma kernel_tap_step (kernel : list number) (src : ImageData) (x y ky kx : Z)
    (r g b : number) (p : nat) :
  (p < length kernel)%nat ->
  kernel_tap (kernel_weights kernel) src x y ky (mkAcc r g b p) kx =
    mkAcc (fadd r (fmul (weight kernel p) (channel src (x + kx) (y + ky) 0)))
          (fadd g (fmul (weight kernel p) (channel src (x + kx) (y + ky) 1)))
          (fadd b (fmul (weight kernel p) (channel src (x + kx) (y + ky) 2)))
          (S p).
Proof.
  intros Hp.
  unfold kernel_tap, kernel_weights, weight, channel. cbn [acc_r acc_g acc_b acc_p].
  rewrite list_lookup_fmap.
  destruct (lookup_lt_is_Some_2 kernel p Hp) as [v Hv].
  unfold number in *. rewrite Hv. reflexivity.
Qed.

Lemma kernel_taps_interior (kernel : list number) (src : ImageData) (x y : Z) :
  length kernel = 9%nat ->
  kernel_taps (kernel_weights kernel) src x y =
    mkAcc (weighted_sum kernel src x y 0)
          (weighted_sum kernel src x y 1)
          (weighted_sum kernel src x y 2) 9.
Proof.
  intros Hk. unfold kernel_taps. cbn [fold_left].
  rewrite !kernel_tap_step by lia.
  unfold weighted_sum. rewrite !Z.add_0_r. reflexivity.
Qed.

(** C2. On a well-formed buffer and a kernel of nine weights, each weight is
    divided by the kernel's sum, or by 1 when the sum is 0 (or NaN); at every
    interior pixel the three colour channels hold the weighted sum of the 3x3
    neighbourhood, computed in doubles in the order of the loops
    ([weighted_sum]), clamped to [0, 255] and rounded into the byte, and alpha
    holds 255; every channel of every pixel of the outermost ring holds 0. *)
Theorem convolution_pixels (canvas : Canvas) (kernel : list number) :
  well_formed (bitmap canvas) ->
  length kernel = 9%nat ->
  (forall p v, kernel !! p = Some v ->
     kernel_weights kernel !! p =
       Some (fdiv v (if falsy (fold_left fadd kernel (of_int 0)) then of_int 1
                     else fold_left fadd kernel (of_int 0)))) /\
  exists out,
    applyKernel canvas kernel = Done out /\
    width (bitmap out) = width (bitmap canvas) /\
    height (bitmap out) = height (bitmap canvas) /\
    forall x y,
      0 <= x < width (bitmap canvas) -> 0 <= y < height (bitmap canvas) ->
      (interior (width (bitmap canvas)) (height (bitmap canvas)) x y ->
         (forall c, 0 <= c < 3 ->
            js_get (data (bitmap out)) ((y * width (bitmap canvas) + x) * 4 + c) =
              Some (convolved kernel (bitmap canvas) x y c)) /\
         js_get (data (bitmap out)) ((y * width (bitmap canvas) + x) * 4 + 3) =
           Some 255) /\
      (~ interior (width (bitmap canvas)) (height (bitmap canvas)) x y ->
         forall c, 0 <= c < 4 ->
           js_get (data (bitmap out)) ((y * width (bitmap canvas) + x) * 4 + c) =
             Some 0).
Proof.
  intros Hwf Hk. pose proof Hwf as (Hw & Hh & Hlen).
  split.
  { intros p v Hp. unfold kernel_weights. rewrite list_lookup_fmap, Hp.
    reflexivity. }
  eexists. split; [apply applyKernel_paint; lia|].
  split; [reflexivity|]. split; [reflexivity|].
  intros x y Hx Hy.
  set (w := width (bitmap canvas)) in *. set (h := height (bitmap canvas)) in *.
  assert (Hget : forall c, 0 <= c < 4 ->
    js_get (data (bitmap (putImageData
       (mkImageData w h
          (paint_all w (kernel_val (kernel_weights kernel) (bitmap canvas))
             (seqZ 1 (w - 2)) (seqZ 1 (h - 2)) (data (blank w h)))) canvas)))
      ((y * w + x) * 4 + c) =
    if decide (x ∈ seqZ 1 (w - 2) /\ y ∈ seqZ 1 (h - 2))
    then Some (kernel_val (kernel_weights kernel) (bitmap canvas) x y c)
    else Some 0).
  { intros c Hc. cbn [putImageData bitmap data blank].
    rewrite (paint_all_get w h) by
      (try assumption; try (apply Forall_seqZ; lia);
       rewrite length_replicate; lia).
    destruct (decide _); [reflexivity|].
    apply js_get_replicate. pose proof (index_bounds w h x y c Hx Hy Hc). lia. }
  split.
  - intros Hint. pose proof Hint as [Hix Hiy].
    assert (Hin : x ∈ seqZ 1 (w - 2) /\ y ∈ seqZ 1 (h - 2)).
    { rewrite !elem_of_seqZ. lia. }
    split.
    + intros c Hc. rewrite Hget by lia.
      destruct (decide _) as [_|?]; [|contradiction].
      unfold kernel_val, convolved.
      rewrite (kernel_taps_interior kernel (bitmap canvas) x y Hk).
      cbn [acc_r acc_g acc_b].
      assert (c = 0 \/ c = 1 \/ c = 2) as [->|[->| ->]] by lia; reflexivity.
    + rewrite Hget by lia.
      destruct (decide _) as [_|?]; [reflexivity|contradiction].
  - intros Hout c Hc. rewrite Hget by lia.
    destruct (decide _) as [[Hix Hiy]|_]; [|reflexivity].
    exfalso. apply Hout. apply elem_of_seqZ in Hix, Hiy.
    unfold interior. lia.
Qed.

End KernelFacts.

Lemma convolution_pixels_witness :
  exists out,
    applyKernel (canvas_of red4) (kernelFromName "Blur") = Done out /\
    js_get (data (bitmap out)) ((1 * 4 + 1) * 4 + 0) = Some 255 /\
    js_get (data (bitmap out)) ((1 * 4 + 1) * 4 + 3) = Some 255 /\
    js_get (data (bitmap out)) ((0 * 4 + 1) * 4 + 0) = Some 0.
Proof.
  destruct (convolution_pixels (canvas_of red4) (kernelFromName "Blur"))
    as (_ & out & Hout & _ & _ & Hpx).
  - unfold well_formed. simpl. lia.
  - reflexivity.
  - exists out. split; [exact Hout|].
    destruct (Hpx 1 1) as [Hin _]; [simpl; lia | simpl; lia |].
    destruct Hin as [Hrgb Ha]; [unfold interior; simpl; lia|].
    destruct (Hpx 1 0) as [_ Hring]; [simpl; lia | simpl; lia |].
    split; [|split].
    + etransitivity; [exact (Hrgb 0 ltac:(lia))|]. vm_compute. reflexivity.
    + exact Ha.
    + apply (Hring ltac:(unfold interior; simpl; lia) 0). lia.
Defined.

(** The sums are those of doubles, not of exact arithmetic: the kernel
    [1,1,1,1,1,1,1,1,2] on the neighbourhood 117, 90, 92, 46, 130, 16, 36,
    42, 8 has the exact weighted sum 58.5, which would be stored as 58; the
    doubles add up to 58.500000000000014, and the byte stored is 59. *)
Lemma convolution_rounds_as_doubles :
  (exists out,
     applyKernel (canvas_of ramp3) heavy_corner = Done out /\
     js_get (data (bitmap out)) ((1 * 3 + 1) * 4 + 0) = Some 59) /\
  weighted_sum heavy_corner ramp3 1 1 0 =
    S754_finite false 8233143068786690 (-47) /\
  round_half_even ((117 + 90 + 92 + 46 + 130 + 16 + 36 + 42 + 2 * 8) / 10) = 58.
Proof.
  split; [|split].
  - eexists. split; [apply applyKernel_paint; discriminate|].
    vm_compute. reflexivity.
  - vm_compute. reflexivity.
  - vm_compute. reflexivity.
Qed.

(** ** Sobel *)

Section SobelFacts.
Context `{Platform}.

Lemma sobel_mag_unfold (w : Z) (gray : list Z) (x y : Z) :
  sobel_mag w gray x y =
    match acc_sx (sobel_taps w gray x y), acc_sy (sobel_taps w gray x y) with
    | Some sx, Some sy => hypot8 sx sy
    | _, _ => 0
    end.
Proof. reflexivity. Qed.

Lemma sobel_pixel_write (w : Z) (gray : list Z) (y : Z) (d : list Z) (x : Z) :
  sobel_pixel w gray y d x =
    write_px ((y * w + x) * 4) (sobel_mag w gray x y) (sobel_mag w gray x y)
             (sobel_mag w gray x y) 255 d.
Proof.
  rewrite sobel_mag_unfold. reflexivity.
Qed.

Lemma applySobel_paint (canvas : Canvas) :
  width (bitmap canvas) <> 0 -> height (bitmap canvas) <> 0 ->
  applySobel canvas =
    Done (putImageData
            (mkImageData (width (bitmap canvas)) (height (bitmap canvas))
               (paint_all (width (bitmap canvas))
                  (sobel_val (width (bitmap canvas)) (gray_of (bitmap canvas)))
                  (seqZ 1 (width (bitmap canvas) - 2))
                  (seqZ 1 (height (bitmap canvas) - 2))
                  (data (blank (width (bitmap canvas)) (height (bitmap canvas))))))
            canvas).
Proof.
  intros Hw Hh. unfold applySobel, getImageData, createImageData.
  destruct (Z.eqb_spec (width (bitmap canvas)) 0) as [?|_]; [contradiction|].
  destruct (Z.eqb_spec (height (bitmap canvas)) 0) as [?|_]; [contradiction|].
  cbn [orb mbind Outcome_bind].
  rewrite (pixel_loops_paint (width (bitmap canvas))
             (sobel_val (width (bitmap canvas)) (gray_of (bitmap canvas))));
    [reflexivity|].
  intros y d x. rewrite sobel_pixel_write. symmetry.
  exact (paint_pick (width (bitmap canvas))
    (sobel_mag (width (bitmap canvas)) (gray_of (bitmap canvas)))
    (sobel_mag (width (bitmap canvas)) (gray_of (bitmap canvas)))
    (sobel_mag (width (bitmap canvas)) (gray_of (bitmap canvas)))
    (fun _ _ => 255) y d x).
Qed.

(** A loop of single stores [g[p] = val p]. *)
Lemma store_loop_length (val : Z -> Z) (ps : list Z) :
  forall d, length (fold_left (fun g p => js_set g p (val p)) ps d) = length d.
Proof.
  induction ps as [|p ps IH]; intros d; cbn [fold_left]; [reflexivity|].
  rewrite IH. apply js_set_length.
Qed.

Lemma store_loop_get (val : Z -> Z) (ps : list Z) :
  forall d j,
    Forall (fun p => 0 <= p < Z.of_nat (length d)) ps -> 0 <= j ->
    js_get (fold_left (fun g p => js_set g p (val p)) ps d) j =
      if decide (j ∈ ps) then Some (val j) else js_get d j.
Proof.
  induction ps as [|p ps IH]; intros d j Hps Hj; cbn [fold_left].
  - destruct (decide (j ∈ [])) as [Hin|_]; [|reflexivity].
    apply elem_of_nil in Hin. contradiction.
  - apply Forall_cons in Hps as [Hp Hps].
    rewrite IH; [|rewrite js_set_length; assumption|assumption].
    destruct (decide (j ∈ ps)) as [Hin|Hnot].
    + destruct (decide (j ∈ p :: ps)) as [_|Hn]; [reflexivity|].
      exfalso. apply Hn. right. assumption.
    + rewrite js_get_set by assumption.
      destruct (decide (j = p)) as [->|Hne].
      * destruct (decide (p ∈ p :: ps)) as [_|Hn]; [reflexivity|].
        exfalso. apply Hn. left.
      * destruct (decide (j ∈ p :: ps)) as [Hin|_]; [|reflexivity].
        exfalso. apply elem_of_cons in Hin as [?|?]; contradiction.
Qed.

Lemma luma_loop_count (n : Z) : (n * 4 + 3) / 4 = n.
Proof. symmetry. apply Z.div_unique with 3; lia. Qed.

Lemma gray_of_get (src : ImageData) (p : Z) :
  well_formed src -> 0 <= p < width src * height src ->
  js_get (gray_of src) p = Some (gray_val src p).
Proof.
  intros (Hw & Hh & Hlen) Hp. unfold gray_of.
  change (gray_step src) with (fun g q => js_set g q (gray_val src q)).
  rewrite store_loop_get.
  - destruct (decide _) as [_|Hn]; [reflexivity|].
    exfalso. apply Hn. apply elem_of_seqZ. rewrite Hlen, luma_loop_count. lia.
  - apply Forall_seqZ. intros q Hq. rewrite length_replicate.
    rewrite Hlen, luma_loop_count in Hq. lia.
  - lia.
Qed.

Lemma gray_val_uniform (src : ImageData) (r g b p : Z) :
  uniform src r g b -> 0 <= p < width src * height src ->
  gray_val src p = luma8 r g b.
Proof.
  intros Hu Hp. destruct (Hu p Hp) as (Hr & Hg & Hb).
  unfold gray_val. rewrite Hr, Hg, Hb. reflexivity.
Qed.

Lemma pixel_bounds (w h x y : Z) :
  0 <= x < w -> 0 <= y < h -> 0 <= y * w + x < w * h.
Proof. intros Hx Hy. nia. Qed.

Lemma sobel_tap_step (w h : Z) (gray : list Z) (g0 x y ky kx sx sy gx gy : Z) (p : nat) :
  (forall q, 0 <= q < w * h -> js_get gray q = Some g0) ->
  0 <= x + kx < w -> 0 <= y + ky < h ->
  Gx !! p = Some gx -> Gy !! p = Some gy ->
  sobel_tap w gray x y ky (mkSAcc (Some sx) (Some sy) p) kx =
    mkSAcc (Some (sx + gx * g0)) (Some (sy + gy * g0)) (S p).
Proof.
  intros Hg Hx Hy Hgx Hgy. unfold sobel_tap. cbn [acc_sx acc_sy sacc_p].
  rewrite Hgx, Hgy, (Hg _ (pixel_bounds w h _ _ Hx Hy)). reflexivity.
Qed.

Lemma sobel_mag_flat (w h : Z) (gray : list Z) (g0 x y : Z) :
  (forall q, 0 <= q < w * h -> js_get gray q = Some g0) ->
  interior w h x y ->
  sobel_mag w gray x y = 0.
Proof.
  intros Hg [Hx Hy]. unfold sobel_mag, sobel_taps. cbn [fold_left].
  repeat (erewrite (sobel_tap_step w h gray g0);
          [|exact Hg|lia|lia|reflexivity|reflexivity]).
  cbn [acc_sx acc_sy].
  replace (0 + -1 * g0 + 0 * g0 + 1 * g0 + -2 * g0 + 0 * g0 + 2 * g0
           + -1 * g0 + 0 * g0 + 1 * g0) with 0 by lia.
  replace (0 + -1 * g0 + -2 * g0 + -1 * g0 + 0 * g0 + 0 * g0 + 0 * g0
           + 1 * g0 + 2 * g0 + 1 * g0) with 0 by lia.
  reflexivity.
Qed.

(** C9. On a well-formed image whose pixels all have one colour, the Sobel
    detector stores magnitude 0 in the three colour channels of every
    interior pixel (black), with alpha 255. *)
Theorem sobel_uniform_black (canvas : Canvas) (r g b : Z) :
  well_formed (bitmap canvas) ->
  uniform (bitmap canvas) r g b ->
  exists out,
    applySobel canvas = Done out /\
    forall x y,
      interior (width (bitmap canvas)) (height (bitmap canvas)) x y ->
      (forall c, 0 <= c < 3 ->
         js_get (data (bitmap out)) ((y * width (bitmap canvas) + x) * 4 + c) =
           Some 0) /\
      js_get (data (bitmap out)) ((y * width (bitmap canvas) + x) * 4 + 3) =
        Some 255.
Proof.
  intros Hwf Hu. pose proof Hwf as (Hw & Hh & Hlen).
  eexists. split; [apply applySobel_paint; lia|].
  intros x y Hint. pose proof Hint as [Hx Hy].
  set (w := width (bitmap canvas)) in *. set (h := height (bitmap canvas)) in *.
  assert (Hgray : forall q, 0 <= q < w * h ->
            js_get (gray_of (bitmap canvas)) q = Some (luma8 r g b)).
  { intros q Hq. rewrite gray_of_get by assumption.
    f_equal. apply gray_val_uniform; assumption. }
  assert (Hget : forall c, 0 <= c < 4 ->
    js_get (data (bitmap (putImageData
       (mkImageData w h
          (paint_all w (sobel_val w (gray_of (bitmap canvas)))
             (seqZ 1 (w - 2)) (seqZ 1 (h - 2)) (data (blank w h)))) canvas)))
      ((y * w + x) * 4 + c) =
    Some (sobel_val w (gray_of (bitmap canvas)) x y c)).
  { intros c Hc. cbn [putImageData bitmap data blank].
    rewrite (paint_all_get w h) by
      (try (apply Forall_seqZ; lia); try lia; rewrite length_replicate; lia).
    destruct (decide _) as [_|Hn]; [reflexivity|].
    exfalso. apply Hn. rewrite !elem_of_seqZ. lia. }
  split.
  - intros c Hc. rewrite Hget by lia. unfold sobel_val.
    rewrite (sobel_mag_flat w h _ (luma8 r g b)) by assumption.
    assert (c = 0 \/ c = 1 \/ c = 2) as [->|[->| ->]] by lia; reflexivity.
  - rewrite Hget by lia. reflexivity.
Qed.

(** C8 as the code has it. On a buffer of positive size narrower or lower
    than 3 pixels, neither effect throws, and both replace the buffer by a
    blank one of the same size: every channel of every pixel is 0. *)
Theorem degenerate_buffer_blanked (canvas : Canvas) (kernel : list number) :
  0 < width (bitmap canvas) -> 0 < height (bitmap canvas) ->
  width (bitmap canvas) < 3 \/ height (bitmap canvas) < 3 ->
  applyKernel canvas kernel =
    Done (putImageData (blank (width (bitmap canvas)) (height (bitmap canvas)))
                       canvas) /\
  applySobel canvas =
    Done (putImageData (blank (width (bitmap canvas)) (height (bitmap canvas)))
                       canvas).
Proof.
  intros Hw Hh Hdeg.
  rewrite applyKernel_paint, applySobel_paint by lia.
  rewrite !paint_all_nothing; [split; reflexivity| |];
    (destruct Hdeg; [left|right]; apply seqZ_nil; lia).
Qed.

End SobelFacts.

Lemma sobel_uniform_black_witness :
  exists out,
    applySobel (canvas_of red4) = Done out /\
    js_get (data (bitmap out)) ((1 * 4 + 1) * 4 + 0) = Some 0 /\
    js_get (data (bitmap out)) ((1 * 4 + 1) * 4 + 3) = Some 255.
Proof.
  destruct (sobel_uniform_black (canvas_of red4) 255 0 0) as (out & Hout & Hpx).
  - unfold well_formed. simpl. lia.
  - intros p Hp. simpl in Hp.
    assert (Hcases : In p [0; 1; 2; 3; 4; 5; 6; 7; 8; 9; 10; 11; 12; 13; 14; 15])
      by (simpl; lia).
    simpl in Hcases.
    repeat (destruct Hcases as [<-|Hcases]; [repeat split; reflexivity|]).
    contradiction.
  - exists out. split; [exact Hout|].
    destruct (Hpx 1 1) as [Hrgb Ha]; [unfold interior; simpl; lia|].
    split; [apply (Hrgb 0); lia | exact Ha].
Defined.

Lemma degenerate_buffer_blanked_witness :
  applyKernel (canvas_of red2) (kernelFromName "Sharpen") =
    Done (canvas_of (blank 2 2)) /\
  applySobel (canvas_of red2) = Done (canvas_of (blank 2 2)).
Proof.
  apply (degenerate_buffer_blanked (canvas_of red2) (kernelFromName "Sharpen"));
    simpl; lia.
Defined.

(** C8 as worded fails: a 2 x 2 opaque red buffer does not come back
    unchanged from either effect. *)
Lemma degenerate_buffer_not_copied :
  applyKernel (canvas_of red2) (kernelFromName "Sharpen") <> Done (canvas_of red2) /\
  applySobel (canvas_of red2) <> Done (canvas_of red2).
Proof.
  split; vm_compute; discriminate.
Qed.

(** A zero-area canvas makes [getImageData] throw in both effects. *)
Lemma zero_area_throws (canvas : Canvas) (kernel : list number) :
  width (bitmap canvas) = 0 \/ height (bitmap canvas) = 0 ->
  applyKernel canvas kernel = IndexSizeError /\
  applySobel canvas = IndexSizeError.
Proof.
  intros Hz. unfold applyKernel, applySobel, getImageData.
  assert ((width (bitmap canvas) =? 0) || (height (bitmap canvas) =? 0) = true) as ->.
  { apply orb_true_iff. destruct Hz as [-> | ->]; [left|right]; reflexivity. }
  split; reflexivity.
Qed.

(** ** The base draw of [drawFull] *)

Section DrawFacts.
Context `{PlatformLaws}.

Lemma drawn_size (c : Canvas) (src : ImageData) (dw dh : Z) :
  width (drawn c src dw dh) = dw /\ height (drawn c src dw dh) = dh.
Proof. unfold drawn. destruct (ctx_filter c); split; reflexivity. Qed.

(** A draw that covers a cleared canvas leaves what was drawn. *)
Lemma drawImage_cleared (src : ImageData) (c : Canvas) (w h : Z) :
  bitmap c = blank w h ->
  bitmap (drawImage src w h c) = drawn c src w h.
Proof.
  intros Hb. unfold drawImage. cbn [bitmap]. rewrite Hb.
  destruct (drawn_size c src w h) as [Hw Hh].
  pose proof (sourceOver_blank (drawn c src w h)) as E.
  rewrite Hw, Hh in E. rewrite E. cbn [width height blank].
  destruct (drawn c src w h) as [dw dh dd]. cbn in Hw, Hh. subst. reflexivity.
Qed.

Lemma drawn_nearest (c : Canvas) (src : ImageData) (w h : Z) :
  ctx_filter c = None -> imageSmoothingEnabled c = false ->
  drawn c src w h = nearest src w h.
Proof. intros Hf Hs. unfold drawn, nearest. rewrite Hf, Hs. reflexivity. Qed.

Lemma drawn_same_size (c : Canvas) (src : ImageData) :
  ctx_filter c = None ->
  drawn c src (width src) (height src) = src.
Proof.
  intros Hf. unfold drawn. rewrite Hf, resample_same_size.
  destruct src. reflexivity.
Qed.

Lemma drawn_filtered (c : Canvas) (src : ImageData) (fl : Filters) :
  ctx_filter c = Some fl ->
  drawn c src (width src) (height src) = toneMap src fl.
Proof.
  intros Hf. unfold drawn, toneMap. rewrite Hf, resample_same_size.
  destruct src. reflexivity.
Qed.

Lemma toneMap_neutral (buf : ImageData) (fl : Filters) :
  isNoOp fl = true -> toneMap buf fl = buf.
Proof.
  intros Hn. unfold toneMap. rewrite cssFilter_neutral by assumption.
  destruct buf. reflexivity.
Qed.

(** Steps 1 and 2 of the pixelate branch, run on the cleared canvas. *)
Lemma pixelate_pass_result (fl : Filters) (im : ImageData) (full : Canvas) (r : Refs) :
  ctx_filter full = None ->
  let c0 := set_imageSmoothingEnabled true (clearRect full) in
  let fw := width (bitmap full) in
  let fh := height (bitmap full) in
  let tw := Z.max 1 (fw / Z.max 1 (pixelate fl)) in
  let th := Z.max 1 (fh / Z.max 1 (pixelate fl)) in
  exists full' tSmall,
    pixelate_pass fl im c0 r = (full', mkRefs (fullRef r) (Some tSmall) (tempLargeRef r)) /\
    bitmap tSmall = nearest im tw th /\
    bitmap full' = nearest (nearest im tw th) fw fh /\
    ctx_filter full' = None /\ imageSmoothingEnabled full' = true.
Proof.
  intros Hf c0 fw fh tw th. unfold pixelate_pass.
  eexists _, _. split; [reflexivity|].
  assert (Hsmall :
    bitmap (drawImage im tw th
              (clearRect (set_imageSmoothingEnabled false
                 (setSize tw th (default newCanvas (tempSmallRef r)))))) =
    nearest im tw th).
  { rewrite (drawImage_cleared im _ tw th) by reflexivity.
    apply drawn_nearest; reflexivity. }
  split; [exact Hsmall|].
  split; [|split; [exact Hf | reflexivity]].
  cbn [bitmap set_imageSmoothingEnabled].
  change (width (bitmap c0)) with fw. change (height (bitmap c0)) with fh.
  rewrite (drawImage_cleared _ _ fw fh) by reflexivity.
  rewrite drawn_nearest by (try reflexivity; exact Hf).
  fold tw th. rewrite Hsmall. reflexivity.
Qed.

(** Step 3 of the pixelate branch on a canvas that holds [buf]. *)
Lemma filter_pass_result (fl : Filters) (full : Canvas) (r : Refs) :
  ctx_filter full = None -> imageSmoothingEnabled full = true ->
  exists full' r',
    filter_pass fl full r = (full', r') /\
    bitmap full' = toneMap (bitmap full) fl /\
    ctx_filter full' = None.
Proof.
  intros Hf Hs. unfold filter_pass.
  destruct (isNoOp fl) eqn:Hn; cbn [negb].
  - eexists _, _. split; [reflexivity|].
    split; [symmetry; apply toneMap_neutral; assumption | assumption].
  - eexists _, _. split; [reflexivity|].
    split; [|exact Hf].
    set (fw := width (bitmap full)). set (fh := height (bitmap full)).
    assert (Hlarge :
      bitmap (drawImage (bitmap full) fw fh
                (set_ctx_filter (Some fl)
                   (clearRect (setSize fw fh (default newCanvas (tempLargeRef r)))))) =
      toneMap (bitmap full) fl).
    { rewrite (drawImage_cleared _ _ fw fh) by reflexivity.
      apply drawn_filtered. reflexivity. }
    rewrite Hlarge. cbn [toneMap width height].
    rewrite (drawImage_cleared _ (clearRect full) fw fh) by reflexivity.
    change fw with (width (toneMap (bitmap full) fl)) at 1.
    change fh with (height (toneMap (bitmap full) fl)) at 1.
    change (mkImageData (width (bitmap full)) (height (bitmap full))
                        (cssFilterPixels fl (bitmap full)))
      with (toneMap (bitmap full) fl).
    apply drawn_same_size. exact Hf.
Qed.

(** The two branches of the base draw give the same composition. *)
Lemma draw_base_result (fl : Filters) (im : ImageData) (full : Canvas) (r : Refs) :
  ctx_filter full = None ->
  width (bitmap full) = width im -> height (bitmap full) = height im ->
  exists base r',
    draw_base fl im (set_imageSmoothingEnabled true (clearRect full)) r = (base, r') /\
    bitmap base = toneMap (pixelate_spec im (pixelate fl)) fl /\
    ctx_filter base = None.
Proof.
  intros Hf Hw Hh. unfold draw_base, pixelate_spec.
  destruct (Z.ltb_spec 1 (pixelate fl)) as [Hgt|Hle].
  - destruct (Z.leb_spec (pixelate fl) 1) as [?|_]; [lia|].
    destruct (pixelate_pass_result fl im full r Hf)
      as (full1 & tSmall & -> & _ & Hb & Hf1 & Hs1).
    destruct (filter_pass_result fl full1
                (mkRefs (fullRef r) (Some tSmall) (tempLargeRef r)) Hf1 Hs1)
      as (full2 & r2 & -> & Hb2 & Hf2).
    exists full2, r2. split; [reflexivity|]. split; [|exact Hf2].
    rewrite Hb2, Hb, Hw, Hh. rewrite (Z.max_r 1 (pixelate fl)) by lia.
    reflexivity.
  - destruct (Z.leb_spec (pixelate fl) 1) as [_|?]; [|lia].
    eexists _, _. split; [reflexivity|]. split; [|reflexivity].
    cbn [set_ctx_filter bitmap].
    change (width (bitmap (set_imageSmoothingEnabled true (clearRect full))))
      with (width (bitmap full)).
    change (height (bitmap (set_imageSmoothingEnabled true (clearRect full))))
      with (height (bitmap full)).
    rewrite (drawImage_cleared _ _ (width (bitmap full)) (height (bitmap full)))
      by reflexivity.
    rewrite Hw, Hh. apply drawn_filtered. reflexivity.
Qed.

(** C3. With a working canvas of the size of the source: for a factor of 1
    or less there is no resampling, the source itself goes through the base
    draw and no temporary canvas is touched; for a factor above 1 the source
    is drawn without smoothing into a canvas of [tw] x [th] pixels, where
    [tw = max(1, floor(width / factor))] and [th = max(1, floor(height /
    factor))], and that canvas is drawn without smoothing at the original
    width and height. *)
Theorem pixelation_resampling (fl : Filters) (im : ImageData) (full : Canvas)
    (r : Refs) :
  ctx_filter full = None ->
  width (bitmap full) = width im -> height (bitmap full) = height im ->
  let c0 := set_imageSmoothingEnabled true (clearRect full) in
  (pixelate fl <= 1 ->
     pixelate_spec im (pixelate fl) = im /\
     exists base, draw_base fl im c0 r = (base, r) /\ bitmap base = toneMap im fl) /\
  (1 < pixelate fl ->
     let tw := Z.max 1 (width im / pixelate fl) in
     let th := Z.max 1 (height im / pixelate fl) in
     exists full' tSmall,
       pixelate_pass fl im c0 r =
         (full', mkRefs (fullRef r) (Some tSmall) (tempLargeRef r)) /\
       bitmap tSmall = nearest im tw th /\
       bitmap full' = nearest (nearest im tw th) (width im) (height im) /\
       bitmap full' = pixelate_spec im (pixelate fl)).
Proof.
  intros Hf Hw Hh c0. split.
  - intros Hle. unfold pixelate_spec.
    destruct (Z.leb_spec (pixelate fl) 1) as [_|?]; [|lia].
    split; [reflexivity|].
    unfold draw_base. destruct (Z.ltb_spec 1 (pixelate fl)) as [?|_]; [lia|].
    eexists. split; [reflexivity|].
    cbn [set_ctx_filter bitmap].
    change (width (bitmap c0)) with (width (bitmap full)).
    change (height (bitmap c0)) with (height (bitmap full)).
    rewrite (drawImage_cleared _ _ (width (bitmap full)) (height (bitmap full)))
      by reflexivity.
    rewrite Hw, Hh. apply drawn_filtered. reflexivity.
  - intros Hgt tw th.
    destruct (pixelate_pass_result fl im full r Hf)
      as (full1 & tSmall & Hpass & Hsmall & Hb & _).
    rewrite Hw, Hh, (Z.max_r 1 (pixelate fl)) in Hsmall, Hb by lia.
    exists full1, tSmall. repeat split; try assumption.
    rewrite Hb. unfold pixelate_spec.
    destruct (Z.leb_spec (pixelate fl) 1) as [?|_]; [lia|]. reflexivity.
Qed.

(** C1. With [showOriginal] off and a working canvas of the size of the
    source, the base draw of [drawFull] leaves the tone-mapped pixelated
    source on the canvas, whichever branch runs: the filter pass over the
    pixelated canvas when [pixelate > 1], or the filtered draw of the source
    otherwise. The optional effects then run on that buffer, and without
    them it is the rendered working buffer. *)
Theorem render_tonemap_after_pixelate (v : View) (r : Refs) (im : ImageData)
    (full : Canvas) :
  img v = Some im -> fullRef r = Some full ->
  showOriginal v = false ->
  ctx_filter full = None ->
  width (bitmap full) = width im -> height (bitmap full) = height im ->
  exists base r',
    draw_base (f v) im (set_imageSmoothingEnabled true (clearRect full)) r =
      (base, r') /\
    bitmap base = toneMap (pixelate_spec im (pixelate (f v))) (f v) /\
    drawFull v r =
      (full' ← draw_effects v base;
       Done (mkRefs (Some full') (tempSmallRef r') (tempLargeRef r'))) /\
    (edgeDetect v = false -> kernelName v = "None"%string ->
     drawFull v r = Done (mkRefs (Some base) (tempSmallRef r') (tempLargeRef r'))).
Proof.
  intros Him Hfull Hshow Hf Hw Hh.
  destruct (draw_base_result (f v) im full r Hf Hw Hh) as (base & r' & Hbase & Hb & _).
  exists base, r'. split; [exact Hbase|]. split; [exact Hb|].
  assert (Hdraw : drawFull v r =
            (full' ← draw_effects v base;
             Done (mkRefs (Some full') (tempSmallRef r') (tempLargeRef r')))).
  { unfold drawFull. rewrite Him, Hfull, Hshow. cbv zeta. rewrite Hbase. reflexivity. }
  split; [exact Hdraw|].
  intros He Hk. rewrite Hdraw. unfold draw_effects. rewrite He, Hk. reflexivity.
Qed.

End DrawFacts.

#[global] Instance reference_laws : PlatformLaws reference_platform.
Proof.
  split.
  - intros b im. cbn. unfold Reference.resample. rewrite !Z.eqb_refl. reflexivity.
  - intros fl im Hn. cbn. unfold Reference.cssFilterPixels. rewrite Hn. reflexivity.
  - intros im. reflexivity.
Qed.

Lemma pixelation_resampling_witness :
  exists full' tSmall,
    pixelate_pass (sliders 0 2) red4
       (set_imageSmoothingEnabled true (clearRect (canvas_of (blank 4 4))))
       (refs_of (blank 4 4)) =
      (full', mkRefs (Some (canvas_of (blank 4 4))) (Some tSmall) None) /\
    bitmap tSmall = nearest red4 2 2 /\
    bitmap full' = red4.
Proof.
  destruct (pixelation_resampling (sliders 0 2) red4 (canvas_of (blank 4 4))
              (refs_of (blank 4 4))) as [_ Hpx];
    [reflexivity | reflexivity | reflexivity | ].
  destruct Hpx as (full' & tSmall & Hpass & Hsmall & Hb & _); [simpl; lia|].
  exists full', tSmall. split; [exact Hpass|]. split; [exact Hsmall|].
  rewrite Hb. vm_compute. reflexivity.
Defined.

Lemma render_tonemap_after_pixelate_witness :
  drawFull (view_of red4 (sliders 100 2)) (refs_of (blank 4 4)) =
    Done (mkRefs
            (Some (canvas_of (mkImageData 4 4 (mjoin (replicate 16 [0; 255; 255; 255])))))
            (Some (mkCanvas (mkImageData 2 2 (mjoin (replicate 4 [255; 0; 0; 255])))
                            false None))
            (Some (mkCanvas (mkImageData 4 4 (mjoin (replicate 16 [0; 255; 255; 255])))
                            true (Some (sliders 100 2))))).
Proof.
  destruct (render_tonemap_after_pixelate (view_of red4 (sliders 100 2))
              (refs_of (blank 4 4)) red4 (canvas_of (blank 4 4)))
    as (base & r' & Hbase & _ & _ & Hdraw);
    [reflexivity | reflexivity | reflexivity | reflexivity | reflexivity
    | reflexivity | ].
  rewrite Hdraw by reflexivity.
  vm_compute in Hbase. injection Hbase as <- <-. vm_compute. reflexivity.
Defined.

(** ** More on the history *)

Section HistoryMore.
Context `{Platform}.

Lemma pushHistory_shape (r : Refs) (s : Hist) (full : Canvas) :
  -1 <= hIndex s <= Z.of_nat (length (history s)) - 1 ->
  fullRef r = Some full ->
  exists old,
    history (pushHistory r s) = old ++ [toDataURL (bitmap full)] /\
    Z.of_nat (length old) = Z.min (hIndex s + 1) 19 /\
    hIndex (pushHistory r s) = Z.of_nat (length old) /\
    old = drop (Z.to_nat (hIndex s + 1) - 19) (take (Z.to_nat (hIndex s + 1)) (history s)).
Proof.
  intros Hi Hf. rewrite (pushHistory_some r s full) by (auto; lia).
  cbn [history hIndex].
  set (pre := take (Z.to_nat (hIndex s + 1)) (history s)).
  assert (Hpre : length pre = Z.to_nat (hIndex s + 1)).
  { unfold pre. rewrite length_take. lia. }
  exists (drop (Z.to_nat (hIndex s + 1) - 19) pre).
  rewrite length_app, Hpre. cbn [length].
  replace (Z.to_nat (hIndex s + 1) + 1 - 20)%nat
    with (Z.to_nat (hIndex s + 1) - 19)%nat by lia.
  rewrite drop_app_le by lia.
  rewrite length_drop, Hpre. repeat split; lia.
Qed.

Lemma pushHistory_entry (r : Refs) (s : Hist) (full : Canvas) :
  hist_inv s ->
  fullRef r = Some full ->
  js_get (history (pushHistory r s)) (hIndex (pushHistory r s)) =
    Some (toDataURL (bitmap full)) /\
  hIndex (pushHistory r s) = Z.of_nat (length (history (pushHistory r s))) - 1 /\
  Z.of_nat (length (history (pushHistory r s))) = Z.min (hIndex s + 2) 20.
Proof.
  intros [Hi Hl] Hf.
  destruct (pushHistory_shape r s full ltac:(lia) Hf) as (old & Hh & Hlen & Hidx & _).
  rewrite Hh, Hidx, length_app. cbn [length]. repeat split; try lia.
  unfold js_get. destruct (Z.ltb_spec (Z.of_nat (length old)) 0) as [?|_]; [lia|].
  rewrite Nat2Z.id. apply list_lookup_middle. reflexivity.
Qed.


(** X2. Undo followed by redo gives back the history state it started
    from when the cursor is above 0, and so does redo followed by undo when
    the cursor is on an entry before the last. *)
Theorem undo_redo_round_trip (s : Hist) (r r' : Refs) :
  hist_inv s ->
  (0 < hIndex s -> fst (redo (fst (undo s r)) r') = s) /\
  (0 <= hIndex s < Z.of_nat (length (history s)) - 1 ->
   fst (undo (fst (redo s r)) r') = s).
Proof.
  intros [Hi Hl]. destruct s as [h i]. cbn [history hIndex] in *. split.
  - intros Hpos. unfold undo. cbn [history hIndex].
    destruct (Z.ltb_spec 0 i) as [_|?]; [|lia].
    unfold redo. cbn [fst history hIndex].
    destruct (Z.ltb_spec (i - 1) (Z.of_nat (length h) - 1)) as [_|?]; [|lia].
    cbn [fst]. f_equal. lia.
  - intros Hlt. unfold redo. cbn [history hIndex].
    destruct (Z.ltb_spec i (Z.of_nat (length h) - 1)) as [_|?]; [|lia].
    unfold undo. cbn [fst history hIndex].
    destruct (Z.ltb_spec 0 (i + 1)) as [_|?]; [|lia].
    cbn [fst]. f_equal. lia.
Qed.

(** X3. Once the history holds an entry, undo never empties the cursor:
    [n] undos from cursor [i >= 0] leave the cursor at [max(0, i - n)] and
    the entries untouched. *)
Theorem undo_n_floor (n : nat) (s : Hist) (r : Refs) :
  0 <= hIndex s ->
  fst (undo_n n (s, r)) = mkHist (history s) (Z.max 0 (hIndex s - Z.of_nat n)).
Proof.
  intros Hi. induction n as [|n IH].
  - cbn. destruct s as [h i]. cbn [history hIndex] in *. f_equal. lia.
  - change (undo_n (S n) (s, r))
      with (undo (fst (undo_n n (s, r))) (snd (undo_n n (s, r)))).
    rewrite IH. unfold undo. cbn [history hIndex].
    destruct (Z.ltb_spec 0 (Z.max 0 (hIndex s - Z.of_nat n))); cbn [fst];
      f_equal; lia.
Qed.

(** X4. A push whose callback saw an older cursor than the current one
    (captured below the current cursor and below 18) keeps only the
    entries up to the captured cursor plus the new one, but still advances
    the current cursor: the cursor ends beyond the last entry. *)
Theorem stale_capture_overruns (captured : Z) (r : Refs) (s : Hist) (full : Canvas) :
  hist_inv s ->
  fullRef r = Some full ->
  -1 <= captured < hIndex s -> captured < 18 ->
  history (pushHistory_captured captured r s) =
    take (Z.to_nat (captured + 1)) (history s) ++ [toDataURL (bitmap full)] /\
  Z.of_nat (length (history (pushHistory_captured captured r s))) - 1 <
    hIndex (pushHistory_captured captured r s) /\
  ~ hist_inv (pushHistory_captured captured r s).
Proof.
  intros [Hi Hl] Hf Hc H18.
  assert (Hh : history (pushHistory_captured captured r s) =
    take (Z.to_nat (captured + 1)) (history s) ++ [toDataURL (bitmap full)]).
  { unfold pushHistory_captured. rewrite Hf. cbn [history].
    rewrite js_slice_prefix by lia. rewrite (js_slice_last _ 20) by lia.
    rewrite length_app, length_take. cbn [length].
    replace (Z.to_nat (captured + 1) `min` length (history s) + 1 - Z.to_nat 20)%nat
      with 0%nat by lia.
    apply drop_0. }
  assert (Hidx : hIndex (pushHistory_captured captured r s) = Z.min (hIndex s + 1) 19).
  { unfold pushHistory_captured. rewrite Hf. reflexivity. }
  assert (Hlt : Z.of_nat (length (history (pushHistory_captured captured r s))) - 1 <
                hIndex (pushHistory_captured captured r s)).
  { rewrite Hh, Hidx, length_app, length_take. cbn [length]. lia. }
  split; [exact Hh|]. split; [exact Hlt|].
  intros [Hinv _]. lia.
Qed.

End HistoryMore.


Lemma undo_redo_round_trip_witness :
  fst (redo (fst (undo (mkHist ["a"; "b"; "c"]%string 2) (refs_of red2)))
            (refs_of red2)) = mkHist ["a"; "b"; "c"]%string 2.
Proof.
  apply (undo_redo_round_trip (mkHist ["a"; "b"; "c"]%string 2)).
  - unfold hist_inv; simpl; lia.
  - simpl; lia.
Defined.

Lemma undo_n_floor_witness :
  fst (undo_n 5 (mkHist ["a"; "b"; "c"]%string 2, refs_of red2)) =
    mkHist ["a"; "b"; "c"]%string 0.
Proof.
  apply (undo_n_floor 5 (mkHist ["a"; "b"; "c"]%string 2) (refs_of red2)).
  simpl; lia.
Defined.

Lemma stale_capture_overruns_witness :
  history (pushHistory_captured 0 (refs_of red2) (mkHist ["a"; "b"; "c"]%string 2)) =
    ["a"%string; toDataURL red2] /\
  hIndex (pushHistory_captured 0 (refs_of red2) (mkHist ["a"; "b"; "c"]%string 2)) = 3.
Proof.
  destruct (stale_capture_overruns 0 (refs_of red2) (mkHist ["a"; "b"; "c"]%string 2)
              (canvas_of red2)) as (Hh & _ & _).
  - unfold hist_inv; simpl; lia.
  - reflexivity.
  - simpl; lia.
  - lia.
  - split; [exact Hh | reflexivity].
Defined.

(** ** More on drawing *)

Section DrawMore.
Context `{PlatformLaws}.

Lemma draw_base_frame (fl : Filters) (im : ImageData) (full : Canvas) (r : Refs) :
  let out := draw_base fl im (set_imageSmoothingEnabled true (clearRect full)) r in
  width (bitmap (fst out)) = width (bitmap full) /\
  height (bitmap (fst out)) = height (bitmap full) /\
  imageSmoothingEnabled (fst out) = true /\
  (ctx_filter full = None -> ctx_filter (fst out) = None).
Proof.
  unfold draw_base, pixelate_pass, filter_pass.
  destruct (1 <? pixelate fl); [destruct (isNoOp fl)|]; cbn; auto.
Qed.

Lemma draw_effects_frame (v : View) (c : Canvas) :
  width (bitmap c) <> 0 -> height (bitmap c) <> 0 ->
  exists c',
    draw_effects v c = Done c' /\
    width (bitmap c') = width (bitmap c) /\
    height (bitmap c') = height (bitmap c) /\
    imageSmoothingEnabled c' = imageSmoothingEnabled c /\
    ctx_filter c' = ctx_filter c.
Proof.
  intros Hw Hh. unfold draw_effects.
  destruct (edgeDetect v).
  - rewrite applySobel_paint by assumption. cbn [mbind Outcome_bind].
    destruct (negb (String.eqb (kernelName v) "None")).
    + rewrite applyKernel_paint by assumption. eexists. split; [reflexivity|].
      cbn. auto.
    + eexists. split; [reflexivity|]. cbn. auto.
  - cbn [mbind Outcome_bind].
    destruct (negb (String.eqb (kernelName v) "None")).
    + rewrite applyKernel_paint by assumption. eexists. split; [reflexivity|].
      cbn. auto.
    + eexists. split; [reflexivity|]. auto.
Qed.

(** X5. On a working canvas of non-zero size [drawFull] never throws, and it
    keeps the size of the canvas; when an image is loaded it leaves
    smoothing enabled, and a context filter that was "none" is "none"
    again. *)
Theorem drawFull_keeps_canvas (v : View) (r : Refs) (full : Canvas) :
  fullRef r = Some full ->
  width (bitmap full) <> 0 -> height (bitmap full) <> 0 ->
  exists r' full',
    drawFull v r = Done r' /\ fullRef r' = Some full' /\
    width (bitmap full') = width (bitmap full) /\
    height (bitmap full') = height (bitmap full) /\
    (img v <> None -> imageSmoothingEnabled full' = true) /\
    (ctx_filter full = None -> ctx_filter full' = None).
Proof.
  intros Hfull Hw Hh. unfold drawFull. rewrite Hfull.
  destruct (img v) as [im|].
  - destruct (showOriginal v).
    + eexists _, _. split; [reflexivity|]. cbn. auto.
    + pose proof (draw_base_frame (f v) im full r) as Hframe. cbv zeta in *.
      destruct (draw_base (f v) im (set_imageSmoothingEnabled true (clearRect full)) r)
        as [base r1].
      cbn [fst] in Hframe. destruct Hframe as (Hbw & Hbh & Hbs & Hbf).
      destruct (draw_effects_frame v base) as (c' & -> & Hcw & Hch & Hcs & Hcf);
        [congruence|congruence|].
      cbn [mbind Outcome_bind]. eexists _, _. split; [reflexivity|].
      cbn [fullRef]. split; [reflexivity|]. repeat split; try congruence.
      intros Hn. rewrite Hcf. auto.
  - exists r, full. repeat split; try assumption; try reflexivity.
    + intros Hn. contradiction.
    + auto.
Qed.

(** X6. With [showOriginal] on, and a working canvas of the size of the
    image, [drawFull] leaves the source itself on the canvas, whatever the
    sliders and effects, and touches no temporary canvas. *)
Theorem drawFull_showOriginal (v : View) (r : Refs) (im : ImageData) (full : Canvas) :
  img v = Some im -> fullRef r = Some full ->
  showOriginal v = true ->
  ctx_filter full = None ->
  width (bitmap full) = width im -> height (bitmap full) = height im ->
  exists full',
    drawFull v r = Done (mkRefs (Some full') (tempSmallRef r) (tempLargeRef r)) /\
    bitmap full' = im.
Proof.
  intros Him Hfull Hshow Hf Hw Hh. unfold drawFull.
  rewrite Him, Hfull, Hshow. cbv zeta. eexists. split; [reflexivity|].
  change (width (bitmap (set_imageSmoothingEnabled true (clearRect full))))
    with (width (bitmap full)).
  change (height (bitmap (set_imageSmoothingEnabled true (clearRect full))))
    with (height (bitmap full)).
  rewrite (drawImage_cleared _ _ (width (bitmap full)) (height (bitmap full)))
    by reflexivity.
  rewrite Hw, Hh. apply drawn_same_size. exact Hf.
Qed.

(** X7. With every slider neutral and no effect, [drawFull] leaves the
    pixelated source on the canvas; with [pixelate] at 1 or less that is the
    source itself, so the default settings render the image unchanged. *)
Theorem drawFull_neutral (v : View) (r : Refs) (im : ImageData) (full : Canvas) :
  img v = Some im -> fullRef r = Some full ->
  showOriginal v = false ->
  ctx_filter full = None ->
  width (bitmap full) = width im -> height (bitmap full) = height im ->
  isNoOp (f v) = true ->
  edgeDetect v = false -> kernelName v = "None"%string ->
  exists r' full',
    drawFull v r = Done r' /\ fullRef r' = Some full' /\
    bitmap full' = pixelate_spec im (pixelate (f v)) /\
    (pixelate (f v) <= 1 -> bitmap full' = im).
Proof.
  intros Him Hfull Hshow Hf Hw Hh Hn He Hk.
  destruct (draw_base_result (f v) im full r Hf Hw Hh) as (base & r1 & Hbase & Hb & _).
  rewrite toneMap_neutral in Hb by assumption.
  exists (mkRefs (Some base) (tempSmallRef r1) (tempLargeRef r1)), base.
  split.
  - unfold drawFull. rewrite Him, Hfull, Hshow. cbv zeta. rewrite Hbase.
    unfold draw_effects. rewrite He, Hk. reflexivity.
  - split; [reflexivity|]. split; [exact Hb|].
    intros Hle. rewrite Hb. unfold pixelate_spec.
    destruct (Z.leb_spec (pixelate (f v)) 1) as [_|?]; [reflexivity|lia].
Qed.

(** X8. Snapshot, redraw, snapshot, undo: when the first snapshot decodes
    back to its pixels and the two canvases have one size, the undo puts the
    pixels of the first snapshot back on the working canvas and the cursor on
    its entry. *)
Theorem undo_restores_snapshot (s : Hist) (r : Refs) (c1 c2 : Canvas) :
  hist_inv s ->
  decodeDataURL (toDataURL (bitmap c1)) = Some (bitmap c1) ->
  ctx_filter c2 = None ->
  width (bitmap c2) = width (bitmap c1) -> height (bitmap c2) = height (bitmap c1) ->
  let st := run [Draw c1; Snapshot; Draw c2; Snapshot; Undo] (s, r) in
  (exists full', fullRef (snd st) = Some full' /\ bitmap full' = bitmap c1) /\
  js_get (history (fst st)) (hIndex (fst st)) = Some (toDataURL (bitmap c1)).
Proof.
  intros Hinv Hdec Hf Hw Hh. cbn [run fold_left step fst snd].
  set (r1 := set_full c1 r). set (s1 := pushHistory r1 s).
  set (r2 := set_full c2 r1). set (s2 := pushHistory r2 s1).
  destruct Hinv as [Hi Hl].
  destruct (pushHistory_shape r1 s c1 ltac:(lia) eq_refl)
    as (old1 & Hh1 & Hlen1 & Hidx1 & _).
  fold s1 in Hh1, Hidx1.
  assert (Hi1 : -1 <= hIndex s1 <= Z.of_nat (length (history s1)) - 1).
  { rewrite Hh1, Hidx1, length_app. cbn [length]. lia. }
  destruct (pushHistory_shape r2 s1 c2 Hi1 eq_refl)
    as (old2 & Hh2 & Hlen2 & Hidx2 & Hold2).
  fold s2 in Hh2, Hidx2.
  assert (Hlast : old2 !! (length old2 - 1)%nat = Some (toDataURL (bitmap c1))).
  { rewrite Hold2, Hh1, Hidx1.
    replace (Z.to_nat (Z.of_nat (length old1) + 1)) with (length (old1 ++ [toDataURL (bitmap c1)]))
      by (rewrite length_app; cbn [length]; lia).
    rewrite firstn_all. rewrite lookup_drop.
    rewrite length_drop, length_app. cbn [length].
    replace (length old1 + 1 - 19 + (length old1 + 1 - (length old1 + 1 - 19) - 1))%nat
      with (length old1) by lia.
    apply list_lookup_middle. reflexivity. }
  assert (Hpos : 0 < hIndex s2) by lia.
  assert (Hget : js_get (history s2) (hIndex s2 - 1) = Some (toDataURL (bitmap c1))).
  { unfold js_get. destruct (Z.ltb_spec (hIndex s2 - 1) 0) as [?|_]; [lia|].
    rewrite Hh2, Hidx2.
    replace (Z.to_nat (Z.of_nat (length old2) - 1)) with (length old2 - 1)%nat by lia.
    rewrite lookup_app_l by lia. exact Hlast. }
  unfold undo. destruct (Z.ltb_spec 0 (hIndex s2)) as [_|?]; [|lia].
  cbn [fst snd history hIndex]. split; [|exact Hget].
  rewrite Hget. unfold restoreFromDataURL. cbn [mbind option_bind].
  rewrite Hdec. cbn [r2 set_full fullRef]. eexists. split; [reflexivity|].
  change (width (bitmap (clearRect c2))) with (width (bitmap c2)).
  change (height (bitmap (clearRect c2))) with (height (bitmap c2)).
  rewrite (drawImage_cleared _ _ (width (bitmap c2)) (height (bitmap c2)))
    by reflexivity.
  rewrite Hw, Hh. apply drawn_same_size. exact Hf.
Qed.

(** X9. The first image load: the handler's [drawFull] still sees no image
    and draws nothing, so the entry that [onload] pushes is a snapshot of the
    cleared canvas, which has the natural size of the image. *)
Theorem first_load_snapshot_blank (v : View) (image : ImageData) (r : Refs) (s : Hist) :
  img v = None ->
  hist_inv s ->
  exists r1 s1,
    onload v (hIndex s) image r s = Done (r1, s1) /\
    fullRef r1 = Some (mkCanvas (blank (width image) (height image)) true None) /\
    js_get (history s1) (hIndex s1) =
      Some (toDataURL (blank (width image) (height image))).
Proof.
  intros Him Hinv. unfold onload, drawFull. rewrite Him.
  cbn [mbind Outcome_bind]. eexists _, _. split; [reflexivity|].
  split; [reflexivity|].
  apply (pushHistory_entry _ s
           (mkCanvas (blank (width image) (height image)) true None) Hinv).
  reflexivity.
Qed.

End DrawMore.

Lemma drawFull_keeps_canvas_witness :
  exists r' full',
    drawFull (view_of red4 (sliders 100 2)) (refs_of (blank 4 4)) = Done r' /\
    fullRef r' = Some full' /\
    width (bitmap full') = 4 /\ height (bitmap full') = 4.
Proof.
  destruct (drawFull_keeps_canvas (view_of red4 (sliders 100 2)) (refs_of (blank 4 4))
              (canvas_of (blank 4 4)))
    as (r' & full' & Hd & Hf & Hw & Hh & _); [reflexivity | simpl; lia | simpl; lia |].
  exists r', full'. auto.
Defined.

Lemma drawFull_showOriginal_witness :
  exists full',
    drawFull (mkView (Some red4) (sliders 100 2) true "Blur" true)
             (refs_of (blank 4 4)) =
      Done (mkRefs (Some full') None None) /\
    bitmap full' = red4.
Proof.
  apply (drawFull_showOriginal (mkView (Some red4) (sliders 100 2) true "Blur" true)
           (refs_of (blank 4 4)) red4 (canvas_of (blank 4 4))); reflexivity.
Defined.

Lemma drawFull_neutral_witness :
  exists r' full',
    drawFull (view_of red4 (sliders 0 1)) (refs_of (blank 4 4)) = Done r' /\
    fullRef r' = Some full' /\ bitmap full' = red4.
Proof.
  destruct (drawFull_neutral (view_of red4 (sliders 0 1)) (refs_of (blank 4 4))
              red4 (canvas_of (blank 4 4)))
    as (r' & full' & Hd & Hf & _ & Hb);
    [reflexivity | reflexivity | reflexivity | reflexivity | reflexivity
    | reflexivity | reflexivity | reflexivity | reflexivity | ].
  exists r', full'. split; [exact Hd|]. split; [exact Hf|].
  apply Hb. simpl. lia.
Defined.

Lemma undo_restores_snapshot_witness :
  exists full',
    fullRef (snd (run [Draw (canvas_of red2); Snapshot; Draw (canvas_of (blank 2 2));
                       Snapshot; Undo] (empty_hist, refs_of red4))) = Some full' /\
    bitmap full' = red2.
Proof.
  destruct (undo_restores_snapshot empty_hist (refs_of red4) (canvas_of red2)
              (canvas_of (blank 2 2))) as [Hpx _].
  - unfold hist_inv; simpl; lia.
  - vm_compute. reflexivity.
  - reflexivity.
  - reflexivity.
  - reflexivity.
  - exact Hpx.
Defined.

Lemma first_load_snapshot_blank_witness :
  exists r1 s1,
    onload (mkView None resetFilters false "None" false) (-1) red4
           (mkRefs None None None) empty_hist = Done (r1, s1) /\
    fullRef r1 = Some (canvas_of (blank 4 4)) /\
    js_get (history s1) (hIndex s1) = Some (toDataURL (blank 4 4)).
Proof.
  apply (first_load_snapshot_blank (mkView None resetFilters false "None" false)
           red4 (mkRefs None None None) empty_hist).
  - reflexivity.
  - unfold hist_inv; simpl; lia.
Defined.

(** ** More on the two effects *)

Lemma toUint8Clamped_byte (r : num) : is_byte (toUint8Clamped r).
Proof. unfold is_byte, toUint8Clamped. destruct r; lia. Qed.

Lemma hypot8_byte (sx sy : Z) : is_byte (hypot8 sx sy).
Proof.
  unfold is_byte, hypot8.
  pose proof (Z.sqrt_nonneg (4 * (sx * sx + sy * sy))) as Hs.
  assert (0 <= (Z.sqrt (4 * (sx * sx + sy * sy)) + 1) / 2)
    by (apply Z.div_pos; lia).
  lia.
Qed.

Lemma js_set_Forall (P : Z -> Prop) (d : list Z) (i v : Z) :
  Forall P d -> P v -> Forall P (js_set d i v).
Proof.
  intros Hd Hv. unfold js_set. destruct (i <? 0); [assumption|].
  apply Forall_insert; assumption.
Qed.

Lemma paint_all_Forall (P : Z -> Prop) (w : Z) (val : Z -> Z -> Z -> Z)
    (xs ys : list Z) :
  (forall x y c, P (val x y c)) ->
  forall d, Forall P d -> Forall P (paint_all w val xs ys d).
Proof.
  intros Hval. unfold paint_all.
  induction ys as [|y ys IHy]; intros d Hd; cbn [fold_left]; [assumption|].
  apply IHy. clear IHy. revert d Hd.
  induction xs as [|x xs IHx]; intros d Hd; cbn [fold_left]; [assumption|].
  apply IHx. unfold paint, write_px. repeat apply js_set_Forall; auto.
Qed.

Lemma pick_byte (v0 v1 v2 v3 c : Z) :
  is_byte v0 -> is_byte v1 -> is_byte v2 -> is_byte v3 ->
  is_byte (pick v0 v1 v2 v3 c).
Proof.
  intros. unfold pick.
  destruct (c =? 0); [assumption|]. destruct (c =? 1); [assumption|].
  destruct (c =? 2); assumption.
Qed.

(** The store of a double is a byte. *)
Lemma ToUint8Clamp_byte (x : number) : is_byte (ToUint8Clamp x).
Proof.
  destruct x as [s|s| |s m e]; cbn [ToUint8Clamp];
    try (unfold is_byte; lia).
  - destruct s; unfold is_byte; lia.
  - apply toUint8Clamped_byte.
Qed.

(** A property decided on the 256 bytes holds of every byte. *)
Lemma bytes_enum (P : Z -> bool) :
  forallb P (seqZ 0 256) = true -> forall v, is_byte v -> P v = true.
Proof.
  intros Hall v Hv. rewrite forallb_forall in Hall. apply Hall.
  apply list_elem_of_In, elem_of_seqZ. unfold is_byte in Hv. lia.
Qed.

(** Doubles hold the bytes exactly: multiplying a byte by 0 or 1, adding 0 to
    it, and storing it back lose nothing. *)
Lemma byte_doubles (v : Z) :
  is_byte v ->
  fmul (of_int 0) (of_int v) = of_int 0 /\
  fmul (of_int 1) (of_int v) = of_int v /\
  fadd (of_int 0) (of_int v) = of_int v /\
  fadd (of_int v) (of_int 0) = of_int v /\
  ToUint8Clamp (clamp255 (of_int v)) = v.
Proof.
  intros Hv.
  pose proof (bytes_enum byte_exact ltac:(vm_compute; reflexivity) v Hv) as Hall.
  unfold byte_exact in Hall.
  repeat (apply andb_prop in Hall; destruct Hall as [Hall ?]).
  repeat split;
    try (eapply bool_decide_eq_true_1; eassumption);
    apply Z.eqb_eq; assumption.
Qed.

Section PixelMore.
Context `{Platform}.

(** The buffer that [applyKernel] leaves, read at an interior pixel. *)
Lemma applyKernel_interior (canvas : Canvas) (kernel : list number) (x y : Z) :
  well_formed (bitmap canvas) -> length kernel = 9%nat ->
  interior (width (bitmap canvas)) (height (bitmap canvas)) x y ->
  exists out,
    applyKernel canvas kernel = Done out /\
    (forall c, 0 <= c < 3 ->
       js_get (data (bitmap out)) ((y * width (bitmap canvas) + x) * 4 + c) =
         Some (convolved kernel (bitmap canvas) x y c)) /\
    js_get (data (bitmap out)) ((y * width (bitmap canvas) + x) * 4 + 3) = Some 255.
Proof.
  intros Hwf Hk Hint. pose proof Hwf as (Hw & Hh & Hlen).
  pose proof Hint as [Hx Hy].
  eexists. split; [apply applyKernel_paint; lia|].
  cbn [putImageData bitmap data blank].
  assert (Hin : x ∈ seqZ 1 (width (bitmap canvas) - 2) /\
                y ∈ seqZ 1 (height (bitmap canvas) - 2)).
  { rewrite !elem_of_seqZ. lia. }
  split.
  - intros c Hc.
    rewrite (paint_all_get (width (bitmap canvas)) (height (bitmap canvas))) by
      (try (apply Forall_seqZ; lia); try lia; rewrite length_replicate; lia).
    destruct (decide _) as [_|Hn]; [|contradiction].
    unfold kernel_val, convolved.
    rewrite (kernel_taps_interior kernel (bitmap canvas) x y Hk).
    cbn [acc_r acc_g acc_b].
    assert (c = 0 \/ c = 1 \/ c = 2) as [->|[->| ->]] by lia;
      rewrite ?(proj1 (pick_channels _ _ _ _)),
              ?(proj1 (proj2 (pick_channels _ _ _ _))),
              ?(proj1 (proj2 (proj2 (pick_channels _ _ _ _)))); reflexivity.
  - rewrite (paint_all_get (width (bitmap canvas)) (height (bitmap canvas))) by
      (try (apply Forall_seqZ; lia); try lia; rewrite length_replicate; lia).
    destruct (decide _) as [_|Hn]; [|contradiction].
    unfold kernel_val. rewrite (proj2 (proj2 (proj2 (pick_channels _ _ _ _)))).
    reflexivity.
Qed.

(** X10. On a canvas of non-zero size, whatever the kernel (of any length),
    both effects leave the size and the context state of the canvas as they
    were and a buffer of [width * height * 4] entries, each a byte in
    [0, 255]. *)
Theorem effects_give_bytes (canvas : Canvas) (kernel : list number) :
  width (bitmap canvas) <> 0 -> height (bitmap canvas) <> 0 ->
  exists outK outS,
    applyKernel canvas kernel = Done outK /\ applySobel canvas = Done outS /\
    Forall (fun out =>
      width (bitmap out) = width (bitmap canvas) /\
      height (bitmap out) = height (bitmap canvas) /\
      imageSmoothingEnabled out = imageSmoothingEnabled canvas /\
      ctx_filter out = ctx_filter canvas /\
      length (data (bitmap out)) =
        Z.to_nat (width (bitmap canvas) * height (bitmap canvas) * 4) /\
      Forall is_byte (data (bitmap out))) [outK; outS].
Proof.
  intros Hw Hh. eexists _, _.
  split; [apply applyKernel_paint; assumption|].
  split; [apply applySobel_paint; assumption|].
  assert (Hout : forall val : Z -> Z -> Z -> Z,
    (forall x y c, is_byte (val x y c)) ->
    let out := putImageData
      (mkImageData (width (bitmap canvas)) (height (bitmap canvas))
         (paint_all (width (bitmap canvas)) val
            (seqZ 1 (width (bitmap canvas) - 2)) (seqZ 1 (height (bitmap canvas) - 2))
            (data (blank (width (bitmap canvas)) (height (bitmap canvas))))))
      canvas in
    width (bitmap out) = width (bitmap canvas) /\
    height (bitmap out) = height (bitmap canvas) /\
    imageSmoothingEnabled out = imageSmoothingEnabled canvas /\
    ctx_filter out = ctx_filter canvas /\
    length (data (bitmap out)) =
      Z.to_nat (width (bitmap canvas) * height (bitmap canvas) * 4) /\
    Forall is_byte (data (bitmap out))).
  { intros val Hval out. unfold out.
    cbn [putImageData bitmap data width height imageSmoothingEnabled ctx_filter].
    repeat split.
    - rewrite paint_all_length. apply length_replicate.
    - apply paint_all_Forall; [exact Hval|].
      apply Forall_replicate. unfold is_byte. lia. }
  constructor; [|constructor; [|constructor]]; apply Hout.
  - intros x y c. unfold kernel_val. apply pick_byte;
      try apply ToUint8Clamp_byte. unfold is_byte. lia.
  - intros x y c. unfold sobel_val, sobel_mag.
    assert (Hm : is_byte
      match acc_sx (sobel_taps (width (bitmap canvas)) (gray_of (bitmap canvas)) x y),
            acc_sy (sobel_taps (width (bitmap canvas)) (gray_of (bitmap canvas)) x y) with
      | Some sx, Some sy => hypot8 sx sy
      | _, _ => 0
      end).
    { destruct (acc_sx _); [destruct (acc_sy _)|];
        try apply hypot8_byte; unfold is_byte; lia. }
    apply pick_byte; try exact Hm. unfold is_byte. lia.
Qed.

Lemma channel_byte (im : ImageData) (x y c : Z) :
  well_formed im -> Forall is_byte (data im) ->
  0 <= x < width im -> 0 <= y < height im -> 0 <= c < 4 ->
  exists v, js_get (data im) ((y * width im + x) * 4 + c) = Some v /\
            is_byte v /\ channel im x y c = of_int v.
Proof.
  intros (Hw & Hh & Hlen) Hb Hx Hy Hc.
  pose proof (index_bounds _ _ _ _ c Hx Hy Hc) as Hi.
  destruct (js_get_is_Some (data im) ((y * width im + x) * 4 + c) ltac:(lia))
    as [v Hv].
  exists v. split; [exact Hv|]. split.
  - unfold js_get in Hv. destruct (_ <? 0); [discriminate|].
    exact (proj1 (Forall_lookup _ _) Hb _ _ Hv).
  - unfold channel. rewrite Hv. reflexivity.
Qed.

(** The weights of the identity kernel stay 0 and 1. *)
Lemma identity_weight_centre : weight identity_kernel 4 = of_int 1.
Proof. vm_compute. reflexivity. Qed.

Lemma identity_weight_off (p : nat) :
  (p < 9)%nat -> p <> 4%nat -> weight identity_kernel p = of_int 0.
Proof.
  intros Hp Hne.
  do 9 (destruct p as [|p]; [try congruence; vm_compute; reflexivity|]). lia.
Qed.

(** X11. The identity kernel [0,0,0,0,1,0,0,0,0] returns the red, green and
    blue bytes of every interior pixel of a well-formed buffer unchanged, and
    makes the pixel opaque. *)
Theorem identity_kernel_interior (canvas : Canvas) (x y : Z) :
  well_formed (bitmap canvas) -> Forall is_byte (data (bitmap canvas)) ->
  interior (width (bitmap canvas)) (height (bitmap canvas)) x y ->
  exists out,
    applyKernel canvas identity_kernel = Done out /\
    (forall c, 0 <= c < 3 ->
       js_get (data (bitmap out)) ((y * width (bitmap canvas) + x) * 4 + c) =
       js_get (data (bitmap canvas)) ((y * width (bitmap canvas) + x) * 4 + c)) /\
    js_get (data (bitmap out)) ((y * width (bitmap canvas) + x) * 4 + 3) = Some 255.
Proof.
  intros Hwf Hb Hint.
  destruct (applyKernel_interior canvas identity_kernel x y Hwf eq_refl Hint)
    as (out & Hout & Hrgb & Ha).
  exists out. split; [exact Hout|]. split; [|exact Ha].
  intros c Hc. rewrite (Hrgb c Hc).
  destruct Hint as [Hx Hy].
  destruct (channel_byte (bitmap canvas) x y c Hwf Hb ltac:(lia) ltac:(lia)
              ltac:(lia)) as (v & Hv & Hbyte & Hch).
  rewrite Hv. f_equal. unfold convolved, weighted_sum.
  rewrite identity_weight_centre, !identity_weight_off by lia.
  assert (Hnb : forall dx dy, -1 <= dx <= 1 -> -1 <= dy <= 1 ->
            exists u, is_byte u /\
              channel (bitmap canvas) (x + dx) (y + dy) c = of_int u).
  { intros dx dy Hdx Hdy.
    destruct (channel_byte (bitmap canvas) (x + dx) (y + dy) c Hwf Hb
                ltac:(lia) ltac:(lia) ltac:(lia)) as (u & _ & Hu & Hcu).
    exists u. split; assumption. }
  destruct (Hnb (-1) (-1) ltac:(lia) ltac:(lia)) as (u0 & B0 & E0).
  destruct (Hnb 0 (-1) ltac:(lia) ltac:(lia)) as (u1 & B1 & E1).
  destruct (Hnb 1 (-1) ltac:(lia) ltac:(lia)) as (u2 & B2 & E2).
  destruct (Hnb (-1) 0 ltac:(lia) ltac:(lia)) as (u3 & B3 & E3).
  destruct (Hnb 1 0 ltac:(lia) ltac:(lia)) as (u5 & B5 & E5).
  destruct (Hnb (-1) 1 ltac:(lia) ltac:(lia)) as (u6 & B6 & E6).
  destruct (Hnb 0 1 ltac:(lia) ltac:(lia)) as (u7 & B7 & E7).
  destruct (Hnb 1 1 ltac:(lia) ltac:(lia)) as (u8 & B8 & E8).
  rewrite !Z.add_0_r in *.
  change (x + -1) with (x - 1) in *. change (y + -1) with (y - 1) in *.
  rewrite E0, E1, E2, E3, Hch, E5, E6, E7, E8.
  rewrite (proj1 (byte_doubles u0 B0)), (proj1 (byte_doubles u1 B1)),
    (proj1 (byte_doubles u2 B2)), (proj1 (byte_doubles u3 B3)),
    (proj1 (byte_doubles u5 B5)), (proj1 (byte_doubles u6 B6)),
    (proj1 (byte_doubles u7 B7)), (proj1 (byte_doubles u8 B8)).
  destruct (byte_doubles v Hbyte) as (_ & Hone & Hzl & Hzr & Hstore).
  assert (Hzz : fadd (of_int 0) (of_int 0) = of_int 0) by (vm_compute; reflexivity).
  rewrite !Hzz, Hone, Hzl, !Hzr. exact Hstore.
Qed.

End PixelMore.

Section KernelMore.
Context `{Platform}.

Lemma uniform_channel (im : ImageData) (r g b x y : Z) :
  uniform im r g b ->
  0 <= x < width im -> 0 <= y < height im ->
  channel im x y 0 = of_int r /\ channel im x y 1 = of_int g /\
  channel im x y 2 = of_int b.
Proof.
  intros Hu Hx Hy.
  destruct (Hu (y * width im + x) (pixel_bounds _ _ _ _ Hx Hy)) as (Hr & Hg & Hb).
  unfold channel.
  replace ((y * width im + x) * 4 + 0) with (4 * (y * width im + x)) by lia.
  replace ((y * width im + x) * 4 + 1) with (4 * (y * width im + x) + 1) by lia.
  replace ((y * width im + x) * 4 + 2) with (4 * (y * width im + x) + 2) by lia.
  rewrite Hr, Hg, Hb. repeat split; reflexivity.
Qed.

Lemma weighted_sum_flat (kernel : list number) (im : ImageData) (x y c v : Z) :
  (forall dx dy, -1 <= dx <= 1 -> -1 <= dy <= 1 ->
     channel im (x + dx) (y + dy) c = of_int v) ->
  weighted_sum kernel im x y c = flat_sum kernel v.
Proof.
  intros Hch.
  pose proof (Hch (-1) (-1) ltac:(lia) ltac:(lia)) as E0.
  pose proof (Hch 0 (-1) ltac:(lia) ltac:(lia)) as E1.
  pose proof (Hch 1 (-1) ltac:(lia) ltac:(lia)) as E2.
  pose proof (Hch (-1) 0 ltac:(lia) ltac:(lia)) as E3.
  pose proof (Hch 0 0 ltac:(lia) ltac:(lia)) as E4.
  pose proof (Hch 1 0 ltac:(lia) ltac:(lia)) as E5.
  pose proof (Hch (-1) 1 ltac:(lia) ltac:(lia)) as E6.
  pose proof (Hch 0 1 ltac:(lia) ltac:(lia)) as E7.
  pose proof (Hch 1 1 ltac:(lia) ltac:(lia)) as E8.
  rewrite !Z.add_0_r in *.
  change (x + -1) with (x - 1) in *. change (y + -1) with (y - 1) in *.
  unfold weighted_sum, flat_sum. cbn [fold_left seq].
  rewrite E0, E1, E2, E3, E4, E5, E6, E7, E8. reflexivity.
Qed.

(** A function on bytes that is checked to fix each of the 256 bytes fixes
    every byte. *)
Lemma bytes_fixed (g : Z -> Z) :
  forallb (fun v => g v =? v) (seqZ 0 256) = true ->
  forall v, is_byte v -> g v = v.
Proof.
  intros Hall v Hv. apply Z.eqb_eq.
  exact (bytes_enum (fun v => g v =? v) Hall v Hv).
Qed.

(** On a buffer of one colour every interior pixel gets the same bytes:
    those of the sum over nine equal neighbours. *)
Lemma flat_interior (canvas : Canvas) (kernel : list number) (r g b x y : Z) :
  well_formed (bitmap canvas) -> uniform (bitmap canvas) r g b ->
  length kernel = 9%nat ->
  interior (width (bitmap canvas)) (height (bitmap canvas)) x y ->
  exists out,
    applyKernel canvas kernel = Done out /\
    js_get (data (bitmap out)) ((y * width (bitmap canvas) + x) * 4 + 0) =
      Some (ToUint8Clamp (clamp255 (flat_sum kernel r))) /\
    js_get (data (bitmap out)) ((y * width (bitmap canvas) + x) * 4 + 1) =
      Some (ToUint8Clamp (clamp255 (flat_sum kernel g))) /\
    js_get (data (bitmap out)) ((y * width (bitmap canvas) + x) * 4 + 2) =
      Some (ToUint8Clamp (clamp255 (flat_sum kernel b))) /\
    js_get (data (bitmap out)) ((y * width (bitmap canvas) + x) * 4 + 3) =
      Some 255.
Proof.
  intros Hwf Hu Hk Hint.
  assert (Hone : forall c v,
            (forall dx dy, -1 <= dx <= 1 -> -1 <= dy <= 1 ->
               channel (bitmap canvas) (x + dx) (y + dy) c = of_int v) ->
            convolved kernel (bitmap canvas) x y c =
              ToUint8Clamp (clamp255 (flat_sum kernel v))).
  { intros c v Hch. unfold convolved. f_equal. f_equal.
    apply weighted_sum_flat. exact Hch. }
  assert (Hch : forall dx dy, -1 <= dx <= 1 -> -1 <= dy <= 1 ->
            channel (bitmap canvas) (x + dx) (y + dy) 0 = of_int r /\
            channel (bitmap canvas) (x + dx) (y + dy) 1 = of_int g /\
            channel (bitmap canvas) (x + dx) (y + dy) 2 = of_int b).
  { intros dx dy Hdx Hdy. destruct Hint as [Hx Hy].
    apply uniform_channel; [exact Hu | lia | lia]. }
  destruct (applyKernel_interior canvas kernel x y Hwf Hk Hint)
    as (out & Hout & Hrgb & Ha).
  exists out. split; [exact Hout|].
  rewrite (Hrgb 0), (Hrgb 1), (Hrgb 2), Ha by lia.
  rewrite (Hone 0 r), (Hone 1 g), (Hone 2 b);
    try (intros dx dy Hdx Hdy; apply Hch; assumption).
  repeat split; reflexivity.
Qed.

(** A kernel that gives every byte back on nine equal neighbours leaves the
    colour of a one-colour buffer at every interior pixel. *)
Lemma uniform_interior (canvas : Canvas) (kernel : list number) (r g b x y : Z) :
  well_formed (bitmap canvas) -> uniform (bitmap canvas) r g b ->
  is_byte r -> is_byte g -> is_byte b ->
  length kernel = 9%nat ->
  (forall v, is_byte v -> ToUint8Clamp (clamp255 (flat_sum kernel v)) = v) ->
  interior (width (bitmap canvas)) (height (bitmap canvas)) x y ->
  exists out,
    applyKernel canvas kernel = Done out /\
    js_get (data (bitmap out)) ((y * width (bitmap canvas) + x) * 4 + 0) = Some r /\
    js_get (data (bitmap out)) ((y * width (bitmap canvas) + x) * 4 + 1) = Some g /\
    js_get (data (bitmap out)) ((y * width (bitmap canvas) + x) * 4 + 2) = Some b /\
    js_get (data (bitmap out)) ((y * width (bitmap canvas) + x) * 4 + 3) = Some 255.
Proof.
  intros Hwf Hu Hr Hg Hb Hk Hkeep Hint.
  destruct (flat_interior canvas kernel r g b x y Hwf Hu Hk Hint)
    as (out & Hout & H0 & H1 & H2 & H3).
  rewrite (Hkeep r Hr) in H0. rewrite (Hkeep g Hg) in H1.
  rewrite (Hkeep b Hb) in H2.
  exists out. repeat split; assumption.
Qed.

(** The weights [2^53, 1, -2^53, 0, ...] add up to 0 in doubles and are
    divided by 1; on nine neighbours holding 100 the sum is 128. *)
Lemma absorbing_kernel_sums :
  fold_left fadd absorbing_kernel (of_int 0) = of_int 0 /\
  kernel_weights absorbing_kernel = absorbing_kernel /\
  ToUint8Clamp (clamp255 (flat_sum absorbing_kernel 100)) = 128.
Proof. repeat split; vm_compute; reflexivity. Qed.

(** X12. A nine-weight kernel applied to a well-formed buffer of one colour
    gives one colour at every interior pixel, opaque: each channel holds the
    byte stored for the sum, in doubles and in the order of the loops, of the
    nine weights each multiplied by that channel's value. *)
Theorem flat_image_convolution (canvas : Canvas) (kernel : list number) (r g b x y : Z) :
  well_formed (bitmap canvas) -> uniform (bitmap canvas) r g b ->
  length kernel = 9%nat ->
  interior (width (bitmap canvas)) (height (bitmap canvas)) x y ->
  exists out,
    applyKernel canvas kernel = Done out /\
    js_get (data (bitmap out)) ((y * width (bitmap canvas) + x) * 4 + 0) =
      Some (ToUint8Clamp (clamp255 (flat_sum kernel r))) /\
    js_get (data (bitmap out)) ((y * width (bitmap canvas) + x) * 4 + 1) =
      Some (ToUint8Clamp (clamp255 (flat_sum kernel g))) /\
    js_get (data (bitmap out)) ((y * width (bitmap canvas) + x) * 4 + 2) =
      Some (ToUint8Clamp (clamp255 (flat_sum kernel b))) /\
    js_get (data (bitmap out)) ((y * width (bitmap canvas) + x) * 4 + 3) =
      Some 255.
Proof. apply flat_interior. Qed.

(** X13. Whatever name reaches [kernelFromName] (Sharpen, Blur, Emboss, or
    anything else, which selects the identity), the kernel it returns leaves
    the colour of a one-colour buffer unchanged at every interior pixel. *)
Theorem named_kernels_keep_flat (canvas : Canvas) (name : string) (r g b x y : Z) :
  well_formed (bitmap canvas) -> uniform (bitmap canvas) r g b ->
  is_byte r -> is_byte g -> is_byte b ->
  interior (width (bitmap canvas)) (height (bitmap canvas)) x y ->
  exists out,
    applyKernel canvas (kernelFromName name) = Done out /\
    js_get (data (bitmap out)) ((y * width (bitmap canvas) + x) * 4 + 0) = Some r /\
    js_get (data (bitmap out)) ((y * width (bitmap canvas) + x) * 4 + 1) = Some g /\
    js_get (data (bitmap out)) ((y * width (bitmap canvas) + x) * 4 + 2) = Some b /\
    js_get (data (bitmap out)) ((y * width (bitmap canvas) + x) * 4 + 3) = Some 255.
Proof.
  intros Hwf Hu Hr Hg Hb Hint.
  assert (Hnamed : length (kernelFromName name) = 9%nat /\
                   forall v, is_byte v ->
                     ToUint8Clamp (clamp255 (flat_sum (kernelFromName name) v)) = v).
  { assert (Hflat : forall kernel,
      forallb (fun v => ToUint8Clamp (clamp255 (flat_sum kernel v)) =? v)
              (seqZ 0 256) = true ->
      forall v, is_byte v -> ToUint8Clamp (clamp255 (flat_sum kernel v)) = v).
    { intros kernel.
      exact (bytes_fixed (fun v => ToUint8Clamp (clamp255 (flat_sum kernel v)))). }
    unfold kernelFromName.
    destruct (String.eqb name "Sharpen");
      [split; [reflexivity | apply Hflat; vm_compute; reflexivity]|].
    destruct (String.eqb name "Blur");
      [split; [reflexivity | apply Hflat; vm_compute; reflexivity]|].
    destruct (String.eqb name "Emboss");
      split; try reflexivity; apply Hflat; vm_compute; reflexivity. }
  destruct Hnamed as [Hlen Hkeep].
  exact (uniform_interior canvas (kernelFromName name) r g b x y
           Hwf Hu Hr Hg Hb Hlen Hkeep Hint).
Qed.

Lemma sobel_tap_read (w : Z) (gray : list Z) (x y ky kx sx sy gx gy g : Z) (p : nat) :
  js_get gray ((y + ky) * w + (x + kx)) = Some g ->
  Gx !! p = Some gx -> Gy !! p = Some gy ->
  sobel_tap w gray x y ky (mkSAcc (Some sx) (Some sy) p) kx =
    mkSAcc (Some (sx + gx * g)) (Some (sy + gy * g)) (S p).
Proof.
  intros Hg Hgx Hgy. unfold sobel_tap. cbn [acc_sx acc_sy sacc_p].
  rewrite Hgx, Hgy, Hg. reflexivity.
Qed.

Lemma sobel_mag_interior (im : ImageData) (x y : Z) :
  well_formed im -> interior (width im) (height im) x y ->
  sobel_mag (width im) (gray_of im) x y = hypot8 (sobel_gx im x y) (sobel_gy im x y).
Proof.
  intros Hwf [Hx Hy].
  assert (Hread : forall dx dy, -1 <= dx <= 1 -> -1 <= dy <= 1 ->
            js_get (gray_of im) ((y + dy) * width im + (x + dx)) =
              Some (luma_at im (x + dx) (y + dy))).
  { intros dx dy Hdx Hdy. apply gray_of_get; [exact Hwf|].
    apply pixel_bounds; lia. }
  unfold sobel_mag, sobel_taps. cbn [fold_left].
  repeat (erewrite sobel_tap_read;
          [|apply Hread; lia|reflexivity|reflexivity]).
  cbn [acc_sx acc_sy]. unfold sobel_gx, sobel_gy.
  rewrite !Z.add_0_r. change (x + -1) with (x - 1). change (y + -1) with (y - 1).
  f_equal; lia.
Qed.

(** X14. On a well-formed buffer the Sobel detector writes, at every
    interior pixel, the rounded magnitude [min(255, sqrt(gx^2 + gy^2))] of
    the two Sobel gradients of the luma field into red, green and blue, with
    alpha 255, and leaves every channel of the outermost ring 0. *)
Theorem sobel_pixels (canvas : Canvas) :
  well_formed (bitmap canvas) ->
  exists out,
    applySobel canvas = Done out /\
    forall x y,
      0 <= x < width (bitmap canvas) -> 0 <= y < height (bitmap canvas) ->
      (interior (width (bitmap canvas)) (height (bitmap canvas)) x y ->
         (forall c, 0 <= c < 3 ->
            js_get (data (bitmap out)) ((y * width (bitmap canvas) + x) * 4 + c) =
              Some (hypot8 (sobel_gx (bitmap canvas) x y)
                           (sobel_gy (bitmap canvas) x y))) /\
         js_get (data (bitmap out)) ((y * width (bitmap canvas) + x) * 4 + 3) =
           Some 255) /\
      (~ interior (width (bitmap canvas)) (height (bitmap canvas)) x y ->
         forall c, 0 <= c < 4 ->
           js_get (data (bitmap out)) ((y * width (bitmap canvas) + x) * 4 + c) =
             Some 0).
Proof.
  intros Hwf. pose proof Hwf as (Hw & Hh & Hlen).
  eexists. split; [apply applySobel_paint; lia|].
  intros x y Hx Hy.
  set (w := width (bitmap canvas)) in *. set (h := height (bitmap canvas)) in *.
  assert (Hget : forall c, 0 <= c < 4 ->
    js_get (data (bitmap (putImageData
       (mkImageData w h
          (paint_all w (sobel_val w (gray_of (bitmap canvas)))
             (seqZ 1 (w - 2)) (seqZ 1 (h - 2)) (data (blank w h)))) canvas)))
      ((y * w + x) * 4 + c) =
    if decide (x ∈ seqZ 1 (w - 2) /\ y ∈ seqZ 1 (h - 2))
    then Some (sobel_val w (gray_of (bitmap canvas)) x y c)
    else Some 0).
  { intros c Hc. cbn [putImageData bitmap data blank].
    rewrite (paint_all_get w h) by
      (try assumption; try (apply Forall_seqZ; lia);
       rewrite length_replicate; lia).
    destruct (decide _); [reflexivity|].
    apply js_get_replicate. pose proof (index_bounds w h x y c Hx Hy Hc). lia. }
  split.
  - intros Hint. pose proof Hint as [Hix Hiy].
    assert (Hin : x ∈ seqZ 1 (w - 2) /\ y ∈ seqZ 1 (h - 2)).
    { rewrite !elem_of_seqZ. lia. }
    split.
    + intros c Hc. rewrite Hget by lia.
      destruct (decide _) as [_|?]; [|contradiction].
      unfold sobel_val. unfold w at 1 2 3.
      rewrite (sobel_mag_interior (bitmap canvas) x y Hwf Hint).
      assert (c = 0 \/ c = 1 \/ c = 2) as [->|[->| ->]] by lia; reflexivity.
    + rewrite Hget by lia.
      destruct (decide _) as [_|?]; [reflexivity|contradiction].
  - intros Hout c Hc. rewrite Hget by lia.
    destruct (decide _) as [[Hix Hiy]|_]; [|reflexivity].
    exfalso. apply Hout. apply elem_of_seqZ in Hix, Hiy.
    unfold interior. lia.
Qed.

End KernelMore.

Lemma effects_give_bytes_witness :
  exists outK outS,
    applyKernel (canvas_of red4) (kernelFromName "Sharpen") = Done outK /\
    applySobel (canvas_of red4) = Done outS /\
    Forall is_byte (data (bitmap outK)) /\ Forall is_byte (data (bitmap outS)).
Proof.
  destruct (effects_give_bytes (canvas_of red4) (kernelFromName "Sharpen"))
    as (outK & outS & HK & HS & Hall); [simpl; lia | simpl; lia |].
  exists outK, outS. split; [exact HK|]. split; [exact HS|].
  apply Forall_cons in Hall as [(_ & _ & _ & _ & _ & HbK) Hall].
  apply Forall_cons in Hall as [(_ & _ & _ & _ & _ & HbS) _].
  split; assumption.
Defined.

Lemma dot3_well_formed : well_formed dot3 /\ Forall is_byte (data dot3).
Proof.
  split; [unfold well_formed; simpl; lia|].
  simpl. repeat (apply Forall_cons_2; [unfold is_byte; lia|]). apply Forall_nil_2.
Qed.

Lemma gray3_uniform : well_formed gray3 /\ uniform gray3 40 80 120.
Proof.
  split; [unfold well_formed; simpl; lia|].
  intros p Hp. simpl in Hp.
  assert (Hcases : In p [0; 1; 2; 3; 4; 5; 6; 7; 8]) by (simpl; lia).
  simpl in Hcases.
  repeat (destruct Hcases as [<-|Hcases]; [repeat split; reflexivity|]).
  contradiction.
Qed.

Lemma identity_kernel_interior_witness :
  exists out,
    applyKernel (canvas_of dot3) identity_kernel = Done out /\
    js_get (data (bitmap out)) ((1 * 3 + 1) * 4 + 0) = Some 200 /\
    js_get (data (bitmap out)) ((1 * 3 + 1) * 4 + 3) = Some 255.
Proof.
  destruct (identity_kernel_interior (canvas_of dot3) 1 1)
    as (out & Hout & Hrgb & Ha).
  - exact (proj1 dot3_well_formed).
  - exact (proj2 dot3_well_formed).
  - unfold interior; simpl; lia.
  - exists out. split; [exact Hout|]. split; [|exact Ha].
    etransitivity; [exact (Hrgb 0 ltac:(lia))|]. reflexivity.
Defined.

Lemma flat_image_convolution_witness :
  exists out,
    applyKernel (canvas_of gray3) absorbing_kernel = Done out /\
    js_get (data (bitmap out)) ((1 * 3 + 1) * 4 + 0) = Some 64 /\
    js_get (data (bitmap out)) ((1 * 3 + 1) * 4 + 1) = Some 128 /\
    js_get (data (bitmap out)) ((1 * 3 + 1) * 4 + 2) = Some 128 /\
    js_get (data (bitmap out)) ((1 * 3 + 1) * 4 + 3) = Some 255.
Proof.
  destruct (flat_image_convolution (canvas_of gray3) absorbing_kernel 40 80 120 1 1)
    as (out & Hout & H0 & H1 & H2 & H3).
  - exact (proj1 gray3_uniform).
  - exact (proj2 gray3_uniform).
  - reflexivity.
  - unfold interior; simpl; lia.
  - exists out. split; [exact Hout|].
    split; [etransitivity; [exact H0|]; vm_compute; reflexivity|].
    split; [etransitivity; [exact H1|]; vm_compute; reflexivity|].
    split; [etransitivity; [exact H2|]; vm_compute; reflexivity|].
    exact H3.
Defined.

Lemma named_kernels_keep_flat_witness :
  exists out,
    applyKernel (canvas_of gray3) (kernelFromName "Emboss") = Done out /\
    js_get (data (bitmap out)) ((1 * 3 + 1) * 4 + 0) = Some 40 /\
    js_get (data (bitmap out)) ((1 * 3 + 1) * 4 + 1) = Some 80 /\
    js_get (data (bitmap out)) ((1 * 3 + 1) * 4 + 2) = Some 120 /\
    js_get (data (bitmap out)) ((1 * 3 + 1) * 4 + 3) = Some 255.
Proof.
  apply (named_kernels_keep_flat (canvas_of gray3) "Emboss" 40 80 120 1 1).
  - exact (proj1 gray3_uniform).
  - exact (proj2 gray3_uniform).
  - unfold is_byte; lia.
  - unfold is_byte; lia.
  - unfold is_byte; lia.
  - unfold interior; simpl; lia.
Defined.

Lemma sobel_pixels_witness :
  exists out,
    applySobel (canvas_of dot3) = Done out /\
    js_get (data (bitmap out)) ((1 * 3 + 1) * 4 + 0) = Some 0 /\
    js_get (data (bitmap out)) ((0 * 3 + 2) * 4 + 3) = Some 0.
Proof.
  destruct (sobel_pixels (canvas_of dot3)) as (out & Hout & Hpx).
  - exact (proj1 dot3_well_formed).
  - exists out. split; [exact Hout|].
    destruct (Hpx 1 1) as [Hin _]; [simpl; lia | simpl; lia |].
    destruct Hin as [Hrgb _]; [unfold interior; simpl; lia|].
    destruct (Hpx 2 0) as [_ Hring]; [simpl; lia | simpl; lia |].
    split.
    + etransitivity; [exact (Hrgb 0 ltac:(lia))|]. vm_compute. reflexivity.
    + apply (Hring ltac:(unfold interior; simpl; lia) 3). lia.
Defined.

(** ** The slider, the presets and the preview size *)

Lemma qmax_spec (a v : Q) : (a <= qmax a v /\ v <= qmax a v)%Q.
Proof.
  unfold qmax. destruct (Qle_bool a v) eqn:E.
  - apply Qle_bool_iff in E. split; [exact E | apply Qle_refl].
  - split; [apply Qle_refl|]. apply Qlt_le_weak, Qnot_le_lt.
    intros Hc. apply Qle_bool_iff in Hc. congruence.
Qed.

Lemma clamp_range (v a b : Q) : (a <= b -> a <= clamp v a b <= b)%Q.
Proof.
  intros Hab. unfold clamp, qmin. pose proof (qmax_spec a v) as [Ha _].
  destruct (Qle_bool b (qmax a v)) eqn:E.
  - split; [exact Hab | apply Qle_refl].
  - split; [exact Ha|]. apply Qlt_le_weak, Qnot_le_lt.
    intros Hc. apply Qle_bool_iff in Hc. congruence.
Qed.

(** [Math.round] of a number between two integers lies between them. *)
Lemma js_round_between (q : Q) (a b : Z) :
  (inject_Z a <= q <= inject_Z b)%Q -> a <= js_round q <= b.
Proof.
  intros [Ha Hb]. unfold js_round.
  pose proof (Qfloor_le (q + (1 # 2))) as Hlo.
  pose proof (Qlt_floor (q + (1 # 2))) as Hhi.
  rewrite inject_Z_plus in Hhi. change (inject_Z 1) with 1%Q in Hhi.
  split.
  - assert (Hlt : (inject_Z a < inject_Z (Qfloor (q + (1 # 2)) + 1))%Q).
    { rewrite inject_Z_plus. change (inject_Z 1) with 1%Q. lra. }
    rewrite <- Zlt_Qlt in Hlt. lia.
  - assert (Hlt : (inject_Z (Qfloor (q + (1 # 2))) < inject_Z (b + 1))%Q).
    { rewrite inject_Z_plus. change (inject_Z 1) with 1%Q. lra. }
    rewrite <- Zlt_Qlt in Hlt. lia.
Qed.

Lemma js_round_exact (q : Q) (z : Z) : (q == inject_Z z)%Q -> js_round q = z.
Proof.
  intros Hq. assert (z <= js_round q <= z); [|lia].
  apply js_round_between. rewrite Hq. split; apply Qle_refl.
Qed.

Lemma pointer_ratio_range (left_ width_ clientX ratio : Q) :
  pointer_ratio left_ width_ clientX = Some ratio -> (0 <= ratio <= 1)%Q.
Proof.
  unfold pointer_ratio. destruct (Qeq_bool width_ 0).
  - destruct (Qeq_bool (clientX - left_) 0); [discriminate|].
    destruct (Qle_bool 0 (clientX - left_)); intros [= <-]; lra.
  - intros [= <-]. apply clamp_range. lra.
Qed.

(** X15. A key press on a slider with [min <= max] emits nothing or a value
    within [min, max]: the arrow keys clamp, Home gives [min] and End gives
    [max]. *)
Theorem slider_keys_in_range (key : string) (value min_ max_ step v : Q) :
  (min_ <= max_)%Q ->
  onKeyDown key value min_ max_ step = Some v ->
  (min_ <= v <= max_)%Q.
Proof.
  intros Hmm. unfold onKeyDown.
  destruct (String.eqb key "ArrowRight" || String.eqb key "ArrowUp").
  { intros [= <-]. apply clamp_range. exact Hmm. }
  destruct (String.eqb key "ArrowLeft" || String.eqb key "ArrowDown").
  { intros [= <-]. apply clamp_range. exact Hmm. }
  destruct (String.eqb key "Home").
  { intros [= <-]. split; [apply Qle_refl | exact Hmm]. }
  destruct (String.eqb key "End").
  { intros [= <-]. split; [exact Hmm | apply Qle_refl]. }
  discriminate.
Qed.

(** X16. A slider of step 1 with integer bounds [a <= b] (the pixelate
    slider has 1 and 40) emits, for any pointer position over a track of
    non-zero width, an integer between [a] and [b]. *)
Theorem slider_pointer_integer (left_ width_ clientX step : Q) (a b : Z) :
  (step == 1)%Q -> a <= b -> ~ (width_ == 0)%Q ->
  exists v z,
    setFromX (Some (left_, width_)) (inject_Z a) (inject_Z b) step clientX =
      Some (Some v) /\
    (v == inject_Z z)%Q /\ a <= z <= b.
Proof.
  intros Hstep Hab Hw. unfold setFromX.
  destruct (pointer_ratio left_ width_ clientX) as [ratio|] eqn:Hr.
  - pose proof (pointer_ratio_range _ _ _ _ Hr) as [H0 H1].
    cbn [fmap option_fmap option_map].
    eexists _, _. split; [reflexivity|].
    assert (Hs : Qeq_bool step 0 = false).
    { apply not_true_is_false. intros Hc. apply Qeq_bool_iff in Hc.
      rewrite Hstep in Hc. discriminate. }
    unfold snap. rewrite Hs. split.
    + rewrite Hstep at 2. ring.
    + apply js_round_between.
      assert (Hab' : (inject_Z a <= inject_Z b)%Q) by (rewrite <- Zle_Qle; exact Hab).
      assert (Hx : (inject_Z a <=
                    inject_Z a + ratio * (inject_Z b - inject_Z a) <= inject_Z b)%Q)
        by (split; nra).
      assert (Hdiv : ((inject_Z a + ratio * (inject_Z b - inject_Z a)) / step ==
                      inject_Z a + ratio * (inject_Z b - inject_Z a))%Q).
      { rewrite Hstep. field. }
      rewrite Hdiv. exact Hx.
  - exfalso. unfold pointer_ratio in Hr.
    destruct (Qeq_bool width_ 0) eqn:E; [|discriminate].
    apply Qeq_bool_iff in E. contradiction.
Qed.

(** X17. Every preset other than Original keeps the pixelate factor;
    Original resets every slider to its neutral value and pixelate to 1; and
    choosing a preset twice is the same as choosing it once. *)
Theorem presets_keep_pixelate (name : string) (p : Filters) :
  (name <> "Original"%string -> pixelate (applyPreset name p) = pixelate p) /\
  (isNoOp (applyPreset "Original" p) = true /\
   pixelate (applyPreset "Original" p) = 1) /\
  applyPreset name (applyPreset name p) = applyPreset name p.
Proof.
  split; [|split; [split; reflexivity|]].
  - intros Hne. apply String.eqb_neq in Hne. unfold applyPreset. rewrite Hne.
    destruct (String.eqb name "Warm"); [reflexivity|].
    destruct (String.eqb name "Cool"); [reflexivity|].
    destruct (String.eqb name "Vintage"); [reflexivity|].
    destruct (String.eqb name "B&W"); [reflexivity|].
    destruct (String.eqb name "Dramatic"); reflexivity.
  - unfold applyPreset.
    destruct (String.eqb name "Original"); [reflexivity|].
    destruct (String.eqb name "Warm"); [reflexivity|].
    destruct (String.eqb name "Cool"); [reflexivity|].
    destruct (String.eqb name "Vintage"); [reflexivity|].
    destruct (String.eqb name "B&W"); [reflexivity|].
    destruct (String.eqb name "Dramatic"); reflexivity.
Qed.

(** X18. The display size never exceeds the size of the canvas. Without
    fit-to-width, or when the canvas is no wider than the room left in the
    holder ([clientWidth - 32], with 1000 for a missing or zero
    [clientWidth]), it is the size of the canvas; a wider canvas is shown
    exactly as wide as that room. *)
Theorem display_size_fits (clientWidth : option Z) (fitToWidth : bool)
    (full : ImageData) :
  0 < width full -> 0 <= height full ->
  let maxW := match clientWidth with
              | Some c => if c =? 0 then 1000 else c
              | None => 1000
              end - 32 in
  let display := getDisplaySize clientWidth fitToWidth full in
  fst display <= width full /\ snd display <= height full /\
  (fitToWidth = false \/ width full <= maxW ->
   display = (width full, height full)) /\
  (fitToWidth = true -> 0 < maxW < width full -> fst display = maxW).
Proof.
  intros Hw Hh maxW display.
  assert (HwQ : (0 < inject_Z (width full))%Q).
  { change 0%Q with (inject_Z 0). rewrite <- Zlt_Qlt. exact Hw. }
  assert (HhQ : (0 <= inject_Z (height full))%Q).
  { change 0%Q with (inject_Z 0). rewrite <- Zle_Qle. exact Hh. }
  assert (Hone : forall n : Z, js_round (inject_Z n * 1) = n).
  { intros n. apply js_round_exact. ring. }
  unfold display, getDisplaySize. fold maxW. cbv zeta.
  destruct fitToWidth.
  - unfold qmin.
    destruct (Qle_bool 1 (inject_Z (maxW - 16 * 2 + 16 * 2) / inject_Z (width full)))
      eqn:E.
    + replace (maxW - 16 * 2 + 16 * 2) with maxW in E by lia.
      replace (match clientWidth with
               | Some c => if c =? 0 then 1000 else c
               | None => 1000
               end - 16 * 2) with maxW by (unfold maxW; lia).
      rewrite E. cbn [fst snd]. rewrite !Hone.
      repeat split; try lia. intros _ Hlt. exfalso.
      apply Qle_bool_iff in E.
      apply (Qmult_le_compat_r _ _ (inject_Z (width full))) in E;
        [|apply Qlt_le_weak; exact HwQ].
      assert (Hsimp : (inject_Z maxW / inject_Z (width full) * inject_Z (width full)
                       == inject_Z maxW)%Q) by (field; lra).
      rewrite Hsimp in E. rewrite Qmult_1_l in E. rewrite <- Zle_Qle in E. lia.
    + replace (maxW - 16 * 2 + 16 * 2) with maxW in E by lia.
      replace (match clientWidth with
               | Some c => if c =? 0 then 1000 else c
               | None => 1000
               end - 16 * 2) with maxW by (unfold maxW; lia).
      rewrite E. cbn [fst snd].
      assert (Hlt : (inject_Z maxW / inject_Z (width full) < 1)%Q).
      { apply Qnot_le_lt. intros Hc. apply Qle_bool_iff in Hc. congruence. }
      assert (HmaxW : maxW < width full).
      { apply (Qmult_lt_compat_r _ _ (inject_Z (width full))) in Hlt; [|exact HwQ].
        assert (Hsimp : (inject_Z maxW / inject_Z (width full) * inject_Z (width full)
                         == inject_Z maxW)%Q) by (field; lra).
        rewrite Hsimp in Hlt. rewrite Qmult_1_l in Hlt.
        rewrite <- Zlt_Qlt in Hlt. exact Hlt. }
      assert (Hfst : js_round (inject_Z (width full) *
                               (inject_Z maxW / inject_Z (width full))) = maxW).
      { apply js_round_exact. field. lra. }
      rewrite Hfst.
      assert (Hsnd : js_round (inject_Z (height full) *
                               (inject_Z maxW / inject_Z (width full))) <= height full).
      { destruct (Z.le_gt_cases 0 maxW) as [Hpos|Hneg].
        - assert (HmQ : (0 <= inject_Z maxW / inject_Z (width full))%Q).
          { apply Qle_shift_div_l; [exact HwQ|]. rewrite Qmult_0_l.
            change 0%Q with (inject_Z 0). rewrite <- Zle_Qle. exact Hpos. }
          apply (js_round_between _ 0 (height full)). split; [|nra].
          change (inject_Z 0) with 0%Q. nra.
        - assert (HmQ : (inject_Z maxW / inject_Z (width full) <= 0)%Q).
          { apply Qle_shift_div_r; [exact HwQ|]. rewrite Qmult_0_l.
            change 0%Q with (inject_Z 0). rewrite <- Zle_Qle. lia. }
          assert (js_round (inject_Z (height full) *
                            (inject_Z maxW / inject_Z (width full))) <= 0); [|lia].
          unfold js_round.
          assert (Hq : (inject_Z (height full) *
                        (inject_Z maxW / inject_Z (width full)) + (1 # 2) < 1)%Q)
            by nra.
          pose proof (Qfloor_le (inject_Z (height full) *
                        (inject_Z maxW / inject_Z (width full)) + (1 # 2))) as Hfl.
          assert (Hz : (inject_Z (Qfloor (inject_Z (height full) *
                        (inject_Z maxW / inject_Z (width full)) + (1 # 2)))
                        < inject_Z 1)%Q).
          { change (inject_Z 1) with 1%Q. lra. }
          rewrite <- Zlt_Qlt in Hz. lia. }
      repeat split; try lia; try (intros [Hc|Hc]; [discriminate|lia]).
  - cbn [fst snd]. rewrite !Hone. repeat split; try lia; try discriminate.
Qed.

(** X19. For a display size and a zoom that are not negative, the backing
    store that [syncPreview] gives the preview canvas is at least as large as
    its CSS box, and both are at least 1 pixel each way. *)
Theorem preview_backing_covers_css (devicePixelRatio zoom : Q) (display : Z * Z) :
  (0 <= zoom)%Q -> 0 <= fst display -> 0 <= snd display ->
  let size := preview_size devicePixelRatio zoom display in
  1 <= css_width size <= prev_width size /\
  1 <= css_height size <= prev_height size.
Proof.
  intros Hz Hw Hh size.
  assert (Hdpr : (1 <= inject_Z (device_ratio devicePixelRatio))%Q).
  { change 1%Q with (inject_Z 1). rewrite <- Zle_Qle. unfold device_ratio. lia. }
  assert (Hmono : forall d : Z, 0 <= d ->
            Qfloor (inject_Z d * zoom) <=
            Qfloor (inject_Z d * zoom * inject_Z (device_ratio devicePixelRatio))).
  { intros d Hd. apply Qfloor_resp_le.
    assert (HdQ : (0 <= inject_Z d)%Q).
    { change 0%Q with (inject_Z 0). rewrite <- Zle_Qle. exact Hd. }
    assert (Hp : (0 <= inject_Z d * zoom)%Q) by (apply Qmult_le_0_compat; assumption).
    rewrite <- (Qmult_1_r (inject_Z d * zoom)) at 1.
    apply Qmult_le_compat_nonneg; split;
      [exact Hp | apply Qle_refl | discriminate | exact Hdpr]. }
  unfold size, preview_size. cbn [css_width css_height prev_width prev_height].
  pose proof (Hmono (fst display) Hw). pose proof (Hmono (snd display) Hh).
  lia.
Qed.

Lemma slider_keys_in_range_witness : (1 <= 40 <= 40)%Q.
Proof.
  apply (slider_keys_in_range "ArrowRight" 40 1 40 1 40).
  - discriminate.
  - vm_compute. reflexivity.
Defined.

Lemma slider_pointer_integer_witness :
  exists v z,
    setFromX (Some (0, 200)%Q) (inject_Z 1) (inject_Z 40) 1 100 = Some (Some v) /\
    (v == inject_Z z)%Q /\ 1 <= z <= 40.
Proof.
  apply (slider_pointer_integer 0 200 100 1 1 40).
  - reflexivity.
  - lia.
  - discriminate.
Defined.

Lemma presets_keep_pixelate_witness :
  pixelate (applyPreset "Warm" (sliders 100 8)) = 8.
Proof.
  apply (proj1 (presets_keep_pixelate "Warm" (sliders 100 8))).
  discriminate.
Defined.

Lemma display_size_fits_witness :
  fst (getDisplaySize (Some 832) true (blank 1600 900)) = 800.
Proof.
  destruct (display_size_fits (Some 832) true (blank 1600 900))
    as (_ & _ & _ & Hfit); [simpl; lia | simpl; lia |].
  apply Hfit; [reflexivity | simpl; lia].
Defined.

Lemma preview_backing_covers_css_witness :
  1 <= css_width (preview_size 2 (1 # 2) (800, 450)) <=
    prev_width (preview_size 2 (1 # 2) (800, 450)).
Proof.
  destruct (preview_backing_covers_css 2 (1 # 2) (800, 450)) as [Hw _].
  - discriminate.
  - simpl; lia.
  - simpl; lia.
  - exact Hw.
Defined.

(** ** Loading, redrawing and navigating *)

Section Session.
Context `{PlatformLaws}.

(** Restoring a snapshot that decodes to an image of the size of the
    canvas puts that image on the canvas. *)
Lemma restore_exact (url : string) (im : ImageData) (r : Refs) (c : Canvas) :
  fullRef r = Some c -> ctx_filter c = None ->
  decodeDataURL url = Some im ->
  width (bitmap c) = width im -> height (bitmap c) = height im ->
  exists c',
    restoreFromDataURL (Some url) r =
      mkRefs (Some c') (tempSmallRef r) (tempLargeRef r) /\
    bitmap c' = im /\ ctx_filter c' = None.
Proof.
  intros Hfull Hf Hdec Hw Hh. unfold restoreFromDataURL.
  cbn [mbind option_bind]. rewrite Hdec, Hfull.
  eexists. split; [reflexivity|]. split; [|exact Hf].
  change (width (bitmap (clearRect c))) with (width (bitmap c)).
  change (height (bitmap (clearRect c))) with (height (bitmap c)).
  rewrite (drawImage_cleared _ _ (width (bitmap c)) (height (bitmap c)))
    by reflexivity.
  rewrite Hw, Hh. apply drawn_same_size. exact Hf.
Qed.

(** Two pushes in a row: the cursor is on the second snapshot, the last
    entry, and the first snapshot is the entry before it. *)
Lemma two_pushes (s : Hist) (r : Refs) (c1 c2 : Canvas) :
  hist_inv s ->
  let s2 := pushHistory (set_full c2 (set_full c1 r))
                        (pushHistory (set_full c1 r) s) in
  0 < hIndex s2 /\
  hIndex s2 = Z.of_nat (length (history s2)) - 1 /\
  js_get (history s2) (hIndex s2 - 1) = Some (toDataURL (bitmap c1)) /\
  js_get (history s2) (hIndex s2) = Some (toDataURL (bitmap c2)).
Proof.
  intros Hinv s2.
  pose proof (pushHistory_entry (set_full c1 r) s c1 Hinv eq_refl)
    as (Hget1 & Hidx1 & Hlen1).
  assert (Hinv1 : hist_inv (pushHistory (set_full c1 r) s))
    by (apply pushHistory_inv; exact Hinv).
  pose proof (pushHistory_entry (set_full c2 (set_full c1 r)) _ c2 Hinv1 eq_refl)
    as (Hget2 & Hidx2 & Hlen2).
  fold s2 in Hget2, Hidx2, Hlen2.
  destruct Hinv as [Hi Hl]. destruct Hinv1 as [Hi1 Hl1].
  destruct (pushHistory_shape (set_full c2 (set_full c1 r)) _ c2 Hi1 eq_refl)
    as (old2 & Hh2 & Hlenold & Hidxold & Hold2).
  fold s2 in Hh2, Hidxold.
  set (s1 := pushHistory (set_full c1 r) s) in *.
  split; [lia|]. split; [exact Hidx2|]. split; [|exact Hget2].
  unfold js_get in *.
  destruct (Z.ltb_spec (hIndex s2 - 1) 0) as [?|_]; [lia|].
  destruct (Z.ltb_spec (hIndex s1) 0) as [?|_]; [lia|].
  rewrite Hh2, Hidxold.
  replace (Z.to_nat (Z.of_nat (length old2) - 1)) with (length old2 - 1)%nat by lia.
  rewrite lookup_app_l by lia.
  rewrite Hold2, lookup_drop, length_drop, length_take.
  rewrite lookup_take_lt by lia.
  rewrite <- Hget1. f_equal. lia.
Qed.

(** X20. The first load followed by the redraw it triggers, with no effect
    switched on: the canvas shows the tone-mapped pixelated image, but the
    entry that the load put in the history is the snapshot of the blank
    canvas. *)
Theorem first_load_then_redraw (v : View) (image : ImageData) (r : Refs) (s : Hist) :
  img v = None -> showOriginal v = false ->
  edgeDetect v = false -> kernelName v = "None"%string ->
  hist_inv s ->
  let v' := mkView (Some image) (f v) (edgeDetect v) (kernelName v) (showOriginal v) in
  exists r1 s1 r2 full2,
    onload v (hIndex s) image r s = Done (r1, s1) /\
    redraw v' r1 = Done r2 /\ fullRef r2 = Some full2 /\
    bitmap full2 = toneMap (pixelate_spec image (pixelate (f v))) (f v) /\
    js_get (history s1) (hIndex s1) =
      Some (toDataURL (blank (width image) (height image))).
Proof.
  intros Him Hshow He Hk Hinv v'.
  set (c0 := mkCanvas (blank (width image) (height image)) true None).
  set (r1 := mkRefs (Some c0) (tempSmallRef r) (tempLargeRef r)).
  destruct (draw_base_result (f v) image c0 r1 eq_refl eq_refl eq_refl)
    as (base & r' & Hbase & Hb & _).
  exists r1, (pushHistory_captured (hIndex s) r1 s),
         (mkRefs (Some base) (tempSmallRef r') (tempLargeRef r')), base.
  split; [|split; [|split; [reflexivity|split; [exact Hb|]]]].
  - unfold onload, drawFull. rewrite Him. reflexivity.
  - unfold redraw, drawFull, v'. cbn [img f showOriginal fullRef r1].
    rewrite Hshow. cbv zeta. rewrite Hbase.
    unfold draw_effects. cbn [edgeDetect kernelName]. rewrite He, Hk. reflexivity.
  - apply (pushHistory_entry r1 s c0 Hinv). reflexivity.
Qed.

(** X21. Snapshot, redraw, snapshot, undo, redo: when both snapshots decode
    back to their pixels and the two canvases have one size, the redo puts
    the pixels of the second snapshot back and the cursor on its entry. *)
Theorem redo_restores_snapshot (s : Hist) (r : Refs) (c1 c2 : Canvas) :
  hist_inv s ->
  decodeDataURL (toDataURL (bitmap c1)) = Some (bitmap c1) ->
  decodeDataURL (toDataURL (bitmap c2)) = Some (bitmap c2) ->
  ctx_filter c2 = None ->
  width (bitmap c2) = width (bitmap c1) -> height (bitmap c2) = height (bitmap c1) ->
  let st := run [Draw c1; Snapshot; Draw c2; Snapshot; Undo; Redo] (s, r) in
  (exists full', fullRef (snd st) = Some full' /\ bitmap full' = bitmap c2) /\
  js_get (history (fst st)) (hIndex (fst st)) = Some (toDataURL (bitmap c2)).
Proof.
  intros Hinv Hd1 Hd2 Hf Hw Hh. cbn [run fold_left step fst snd].
  pose proof (two_pushes s r c1 c2 Hinv) as (Hpos & Hlast & Hget1 & Hget2).
  cbv zeta in Hpos, Hlast, Hget1, Hget2.
  set (r2 := set_full c2 (set_full c1 r)) in *.
  set (s2 := pushHistory r2 (pushHistory (set_full c1 r) s)) in *.
  unfold undo. destruct (Z.ltb_spec 0 (hIndex s2)) as [_|?]; [|lia].
  cbn [fst snd]. rewrite Hget1.
  destruct (restore_exact (toDataURL (bitmap c1)) (bitmap c1) r2 c2
              eq_refl Hf Hd1 Hw Hh) as (c3 & -> & Hb3 & Hf3).
  unfold redo. cbn [history hIndex].
  destruct (Z.ltb_spec (hIndex s2 - 1) (Z.of_nat (length (history s2)) - 1))
    as [_|?]; [|lia].
  cbn [fst snd history hIndex].
  replace (hIndex s2 - 1 + 1) with (hIndex s2) by lia.
  rewrite Hget2. split; [|reflexivity].
  destruct (restore_exact (toDataURL (bitmap c2)) (bitmap c2)
              (mkRefs (Some c3) (tempSmallRef r2) (tempLargeRef r2)) c3
              eq_refl Hf3 Hd2) as (c4 & -> & Hb4 & _).
  - rewrite Hb3. symmetry. exact Hw.
  - rewrite Hb3. symmetry. exact Hh.
  - exists c4. split; [reflexivity | exact Hb4].
Qed.

(** X22. A pixelate factor larger than both sides of the canvas does not
    empty the small canvas: it is 1 x 1, and the result is that one sample
    drawn over the whole canvas. *)
Theorem pixelate_beyond_size (fl : Filters) (im : ImageData) (full : Canvas) (r : Refs) :
  ctx_filter full = None ->
  0 < width (bitmap full) < pixelate fl ->
  0 < height (bitmap full) < pixelate fl ->
  exists full' tSmall,
    pixelate_pass fl im (set_imageSmoothingEnabled true (clearRect full)) r =
      (full', mkRefs (fullRef r) (Some tSmall) (tempLargeRef r)) /\
    bitmap tSmall = nearest im 1 1 /\
    bitmap full' =
      nearest (nearest im 1 1) (width (bitmap full)) (height (bitmap full)).
Proof.
  intros Hf Hw Hh.
  destruct (pixelate_pass_result fl im full r Hf)
    as (full' & tSmall & Hpass & Hsmall & Hb & _).
  rewrite (Z.max_r 1 (pixelate fl)) in Hsmall, Hb by lia.
  rewrite !Z.div_small in Hsmall, Hb by lia.
  change (Z.max 1 0) with 1 in Hsmall, Hb.
  exists full', tSmall. auto.
Qed.

End Session.

Lemma first_load_then_redraw_witness :
  exists r1 s1 r2 full2,
    onload (mkView None (sliders 100 1) false "None" false) (-1) red4
           (mkRefs None None None) empty_hist = Done (r1, s1) /\
    redraw (view_of red4 (sliders 100 1)) r1 = Done r2 /\
    fullRef r2 = Some full2 /\
    bitmap full2 = mkImageData 4 4 (mjoin (replicate 16 [0; 255; 255; 255])) /\
    js_get (history s1) (hIndex s1) = Some (toDataURL (blank 4 4)).
Proof.
  destruct (first_load_then_redraw (mkView None (sliders 100 1) false "None" false)
              red4 (mkRefs None None None) empty_hist)
    as (r1 & s1 & r2 & full2 & Hload & Hre & Hfull & Hb & Hentry);
    [reflexivity | reflexivity | reflexivity | reflexivity
    | unfold hist_inv; simpl; lia | ].
  exists r1, s1, r2, full2.
  split; [exact Hload|]. split; [exact Hre|]. split; [exact Hfull|].
  split; [rewrite Hb; vm_compute; reflexivity | exact Hentry].
Defined.

Lemma redo_restores_snapshot_witness :
  exists full',
    fullRef (snd (run [Draw (canvas_of red2); Snapshot; Draw (canvas_of (blank 2 2));
                       Snapshot; Undo; Redo] (empty_hist, refs_of red4))) = Some full' /\
    bitmap full' = blank 2 2.
Proof.
  destruct (redo_restores_snapshot empty_hist (refs_of red4) (canvas_of red2)
              (canvas_of (blank 2 2))) as [Hpx _].
  - unfold hist_inv; simpl; lia.
  - vm_compute. reflexivity.
  - vm_compute. reflexivity.
  - reflexivity.
  - reflexivity.
  - reflexivity.
  - exact Hpx.
Defined.

Lemma pixelate_beyond_size_witness :
  exists full' tSmall,
    pixelate_pass (sliders 0 10) red4
       (set_imageSmoothingEnabled true (clearRect (canvas_of (blank 4 4))))
       (refs_of (blank 4 4)) =
      (full', mkRefs (Some (canvas_of (blank 4 4))) (Some tSmall) None) /\
    bitmap tSmall = mkImageData 1 1 [255; 0; 0; 255] /\
    bitmap full' = red4.
Proof.
  destruct (pixelate_beyond_size (sliders 0 10) red4 (canvas_of (blank 4 4))
              (refs_of (blank 4 4)))
    as (full' & tSmall & Hpass & Hsmall & Hb);
    [reflexivity | simpl; lia | simpl; lia |].
  exists full', tSmall. split; [exact Hpass|]. split.
  - rewrite Hsmall. vm_compute. reflexivity.
  - rewrite Hb. vm_compute. reflexivity.
Defined.

(** ** Undo and redo on every history state *)

Section Boundaries.
Context `{PlatformLaws}.





End Boundaries.


(** ** The load that arrives after a snapshot *)

Section StaleLoad.
Context `{Platform}.

(** C4. The cursor does not stay within [-1, length - 1] for every sequence
    of pushes: the push made by the [onload] handler of the image effect
    slices the entries with the [hIndex] of the render that started the load
    while the cursor is advanced from its current value. Choosing an image,
    its load, choosing a second image, one Snapshot while it loads, and its
    load: before the last event the history has 2 entries with the cursor on
    the second, within the invariant, and a push by the Snapshot button there
    would keep it; the load's push leaves 2 entries with the cursor at 2,
    where there is no entry. *)
Theorem stale_load_breaks_invariant :
  exists st0 st,
    session [Choose red2; Loaded; Choose red4; PressSnapshot] fresh = Done st0 /\
    session [Choose red2; Loaded; Choose red4; PressSnapshot; Loaded] fresh = Done st /\
    length (history (hist st0)) = 2%nat /\ hIndex (hist st0) = 1 /\
    hist_inv (hist st0) /\
    hist_inv (pushHistory (refs st0) (hist st0)) /\
    option_map capturedIndex (loading st0) = Some 0 /\
    length (history (hist st)) = 2%nat /\ hIndex (hist st) = 2 /\
    js_get (history (hist st)) (hIndex (hist st)) = None /\
    ~ hist_inv (hist st).
Proof.
  assert (Hinv : forall s : Hist,
    (-1 <=? hIndex s) && (hIndex s <=? Z.of_nat (length (history s)) - 1) &&
    (length (history s) <=? 20)%nat = true -> hist_inv s).
  { intros s Hs. apply andb_prop in Hs as [Hs Hlen].
    apply andb_prop in Hs as [Hlo Hhi].
    apply Z.leb_le in Hlo, Hhi. apply Nat.leb_le in Hlen.
    unfold hist_inv. lia. }
  eexists _, _.
  split; [vm_compute; reflexivity|]. split; [vm_compute; reflexivity|].
  split; [reflexivity|]. split; [reflexivity|].
  split; [apply Hinv; vm_compute; reflexivity|].
  split; [apply Hinv; vm_compute; reflexivity|].
  split; [reflexivity|]. split; [reflexivity|]. split; [reflexivity|].
  split; [reflexivity|].
  intros [[_ Hcursor] _]. apply Z.leb_le in Hcursor.
  vm_compute in Hcursor. discriminate.
Qed.

End StaleLoad.
